(** * Raffle bot (src/bot.py): state cache, durable store, draws and archival

    A shallow embedding of the state-management core of [src/bot.py]:
    the five module-level containers (the in-memory cache), the eight
    PostgreSQL tables created by [db_init], the [db_*] helpers, the bot
    commands that change either of them and the [archive_watcher] task.

    Python dicts are finite maps ([gmap]), Python sets are finite sets
    ([gset]); a table with a one-column primary key is a finite map from
    the key, [raffle_winners] is the list of its rows in insertion order.
    User ids are [Z] (BIGINT, Python int), timestamps are [Z] (seconds,
    UTC), counters are [Z] (Python int; the INTEGER range of the store is
    never approached and is not modelled). *)

From stdpp Require Import gmap strings list fin_maps.
From Stdlib Require Import Ascii ZArith Lia.

Open Scope Z_scope.

(** ** Data model *)

(** [{"registrations": int, "wins": int}] / a row of table [stats]. *)
Record Stat := mkStat { registrations : Z; wins : Z }.

(** The module-level containers of bot.py, lines 47-51. *)
Record Cache := mkCache {
  user_links : gmap Z string;        (* {user_id: "https://x.com/..."} *)
  user_stats : gmap Z Stat;          (* {user_id: {registrations, wins}} *)
  raffles : gmap string (list Z);    (* {raffle_name: [user_id, ...]} *)
  already_picked : gset Z;
  always_pick : gset Z
}.

Module DB.

(** A row of [raffles] without its key: [created_at], [archived]. *)
Record RaffleRow := mkRaffleRow { created_at : Z; archived : Z }.

(** A row of [raffle_winners]; its primary key is
    [(raffle_name, user_id)]. *)
Record WinnerRow := mkWinnerRow
  { raffle_name : string; user_id : Z; picked_at : Z }.

(** The tables of [db_init], lines 75-128.  Two foreign keys are
    declared there, both with the default action (NO ACTION, checked at
    the end of each statement): [stats.user_id -> users.user_id] and
    [raffle_winners.raffle_name -> raffles.raffle_name]. *)
Record t := mk {
  users : gmap Z string;              (* user_id -> x_link *)
  stats : gmap Z Stat;
  always_pick : gset Z;
  raffles : gmap string RaffleRow;
  raffle_winners : list WinnerRow;
  picks_state : gset Z;
  archive_schedule : gmap string Z;   (* raffle_name -> archive_at *)
  blacklist : gset Z
}.

Definition empty : t := mk ∅ ∅ ∅ ∅ [] ∅ ∅ ∅.

Inductive error :=
| ForeignKeyViolation   (* a statement broke one of the two foreign keys *)
| OperationalError.     (* the store could not be reached *)

(** The result of one transaction ([with DB_ENGINE.begin() as conn]):
    either the new contents, or an error, in which case the
    transaction is rolled back and the tables are what they were. *)
Inductive result := Ok (d : t) | Err (e : error).

Definition and_then (r : result) (k : t → result) : result :=
  match r with Ok d => k d | Err e => Err e end.

Definition set_users (v : gmap Z string) (d : t) : t :=
  mk v (stats d) (always_pick d) (raffles d) (raffle_winners d)
     (picks_state d) (archive_schedule d) (blacklist d).
Definition set_stats (v : gmap Z Stat) (d : t) : t :=
  mk (users d) v (always_pick d) (raffles d) (raffle_winners d)
     (picks_state d) (archive_schedule d) (blacklist d).
Definition set_always_pick (v : gset Z) (d : t) : t :=
  mk (users d) (stats d) v (raffles d) (raffle_winners d)
     (picks_state d) (archive_schedule d) (blacklist d).
Definition set_raffles (v : gmap string RaffleRow) (d : t) : t :=
  mk (users d) (stats d) (always_pick d) v (raffle_winners d)
     (picks_state d) (archive_schedule d) (blacklist d).
Definition set_raffle_winners (v : list WinnerRow) (d : t) : t :=
  mk (users d) (stats d) (always_pick d) (raffles d) v
     (picks_state d) (archive_schedule d) (blacklist d).
Definition set_picks_state (v : gset Z) (d : t) : t :=
  mk (users d) (stats d) (always_pick d) (raffles d) (raffle_winners d)
     v (archive_schedule d) (blacklist d).
Definition set_archive_schedule (v : gmap string Z) (d : t) : t :=
  mk (users d) (stats d) (always_pick d) (raffles d) (raffle_winners d)
     (picks_state d) v (blacklist d).
Definition set_blacklist (v : gset Z) (d : t) : t :=
  mk (users d) (stats d) (always_pick d) (raffles d) (raffle_winners d)
     (picks_state d) (archive_schedule d) v.

(** *** Single statements *)

(** Does [raffle_winners] hold a row with this primary key? *)
Definition has_winner (name : string) (uid : Z) (d : t) : bool :=
  bool_decide (Exists (λ r, raffle_name r = name ∧ user_id r = uid)
                      (raffle_winners d)).

(** [INSERT INTO users(user_id, x_link) VALUES(..)
     ON CONFLICT(user_id) DO UPDATE SET x_link=EXCLUDED.x_link] *)
Definition upsert_users (uid : Z) (link : string) (d : t) : result :=
  Ok (set_users (<[uid := link]> (users d)) d).

(** [INSERT INTO stats(..) VALUES(uid, reg_val, wins_val)
     ON CONFLICT(user_id) DO UPDATE SET
       registrations = stats.registrations + delta_reg,
       wins = stats.wins + delta_wins].
    With [on_conflict = None] the statement is the
    [ON CONFLICT(user_id) DO NOTHING] form.  A row that is really
    inserted must reference an existing user. *)
Definition insert_stats (uid reg_val wins_val : Z)
    (on_conflict : option (Z * Z)) (d : t) : result :=
  match stats d !! uid with
  | Some st =>
      match on_conflict with
      | None => Ok d
      | Some (delta_reg, delta_wins) =>
          Ok (set_stats
                (<[uid := mkStat (registrations st + delta_reg)
                                 (wins st + delta_wins)]> (stats d)) d)
      end
  | None =>
      if bool_decide (is_Some (users d !! uid))
      then Ok (set_stats (<[uid := mkStat reg_val wins_val]> (stats d)) d)
      else Err ForeignKeyViolation
  end.

(** [DELETE FROM users WHERE user_id = uid]: refused while a [stats]
    row still references the user. *)
Definition delete_user (uid : Z) (d : t) : result :=
  if bool_decide (is_Some (users d !! uid) ∧ is_Some (stats d !! uid))
  then Err ForeignKeyViolation
  else Ok (set_users (delete uid (users d)) d).

(** [DELETE FROM users]: refused while any [stats] row references a
    user. *)
Definition delete_all_users (d : t) : result :=
  if bool_decide (Exists (λ uid, is_Some (users d !! uid))
                         (elements (dom (stats d))))
  then Err ForeignKeyViolation
  else Ok (set_users ∅ d).

(** [DELETE FROM raffles]: refused while any [raffle_winners] row
    references a raffle. *)
Definition delete_all_raffles (d : t) : result :=
  if bool_decide (Exists (λ r, is_Some (raffles d !! raffle_name r))
                         (raffle_winners d))
  then Err ForeignKeyViolation
  else Ok (set_raffles ∅ d).

(** [INSERT INTO raffle_winners(raffle_name, user_id, picked_at)
     VALUES(name, uid, NOW()) ON CONFLICT DO NOTHING] *)
Definition insert_winner (name : string) (uid now : Z) (d : t) : result :=
  if has_winner name uid d then Ok d
  else if bool_decide (is_Some (raffles d !! name))
  then Ok (set_raffle_winners
             (raffle_winners d ++ [mkWinnerRow name uid now]) d)
  else Err ForeignKeyViolation.

(** [DELETE FROM raffle_winners WHERE user_id = uid] *)
Definition delete_winners_of (uid : Z) (d : t) : result :=
  Ok (set_raffle_winners
        (filter (λ r, user_id r ≠ uid) (raffle_winners d)) d).

End DB.


(** ** The process state and the command monad

    A command runs against the cache and the store.  It may raise: the
    exception leaves the command, and what the command had already done
    to the cache, and every transaction it had already committed, stay
    (Python has no rollback of its own). *)

Record State := mkState { cache : Cache; db : DB.t }.

Inductive exn :=
| DbError (e : DB.error)   (* raised by a [conn.execute] *)
| KeyError                 (* [raffles[raffle_name]] on a missing key *)
| DiscordError.            (* discord.Forbidden / discord.HTTPException *)

Inductive outcome (A : Type) := Return (a : A) | Raise (e : exn).
Arguments Return {A} a.
Arguments Raise {A} e.

Definition M (A : Type) : Type := State → outcome A * State.

#[export] Instance M_ret : MRet M := λ A a st, (Return a, st).
#[export] Instance M_bind : MBind M := λ A B k m st,
  match m st with
  | (Return a, st') => k a st'
  | (Raise e, st') => (Raise e, st')
  end.

Definition raise {A} (e : exn) : M A := λ st, (Raise e, st).
Definition get_state : M State := λ st, (Return st, st).
Definition modify_cache (f : Cache → Cache) : M unit :=
  λ st, (Return (), mkState (f (cache st)) (db st)).

(** [with DB_ENGINE.begin() as conn: ...]: commit, or roll back and
    raise. *)
Definition transaction (f : DB.t → DB.result) : M unit := λ st,
  match f (db st) with
  | DB.Ok d => (Return (), mkState (cache st) d)
  | DB.Err e => (Raise (DbError e), st)
  end.

(** [for x in l: body]. *)
Fixpoint for_each {A} (l : list A) (body : A → M unit) : M unit :=
  match l with
  | [] => mret ()
  | x :: l' => body x ;; for_each l' body
  end.

(** The state a command leaves behind, whether it returned or raised. *)
Definition exec {A} (m : M A) (st : State) : State := (m st).2.

Definition set_user_links (v : gmap Z string) (c : Cache) : Cache :=
  mkCache v (user_stats c) (raffles c) (already_picked c) (always_pick c).
Definition set_user_stats (v : gmap Z Stat) (c : Cache) : Cache :=
  mkCache (user_links c) v (raffles c) (already_picked c) (always_pick c).
Definition set_raffles (v : gmap string (list Z)) (c : Cache) : Cache :=
  mkCache (user_links c) (user_stats c) v (already_picked c) (always_pick c).
Definition set_already_picked (v : gset Z) (c : Cache) : Cache :=
  mkCache (user_links c) (user_stats c) (raffles c) v (always_pick c).
Definition set_always_pick (v : gset Z) (c : Cache) : Cache :=
  mkCache (user_links c) (user_stats c) (raffles c) (already_picked c) v.

Definition empty_cache : Cache := mkCache ∅ ∅ ∅ ∅ ∅.

(** ** Database helpers (lines 160-263) *)

Definition db_upsert_user (uid : Z) (link : string) : M unit :=
  transaction (λ d,
    DB.and_then (DB.upsert_users uid link d)
                (DB.insert_stats uid 0 0 None)).

(** The call [db_upsert_user(user_id)] passes no link: the parameter
    takes its default, the empty string. *)
Definition db_update_stat (uid delta_reg delta_wins : Z) : M unit :=
  db_upsert_user uid "" ;;
  transaction
    (DB.insert_stats uid (Z.max delta_reg 0) (Z.max delta_wins 0)
                     (Some (delta_reg, delta_wins))).

Definition db_set_always (uid : Z) (add : bool) : M unit :=
  transaction (λ d, DB.Ok
    (DB.set_always_pick
       (if add then {[uid]} ∪ DB.always_pick d
        else DB.always_pick d ∖ {[uid]}) d)).

Definition db_set_picked (uid : Z) (add : bool) : M unit :=
  transaction (λ d, DB.Ok
    (DB.set_picks_state
       (if add then {[uid]} ∪ DB.picks_state d
        else DB.picks_state d ∖ {[uid]}) d)).

Definition db_reset_picks : M unit :=
  transaction (λ d, DB.Ok (DB.set_picks_state ∅ d)).

(** [INSERT INTO raffles(raffle_name, archived) VALUES(:name, 0)
     ON CONFLICT DO NOTHING]; [created_at] takes its default, the
    current time. *)
Definition db_create_raffle (name : string) (now : Z) : M unit :=
  transaction (λ d, DB.Ok
    match DB.raffles d !! name with
    | Some _ => d
    | None => DB.set_raffles (<[name := DB.mkRaffleRow now 0]> (DB.raffles d)) d
    end).

Definition db_add_winner (name : string) (uid now : Z) : M unit :=
  transaction (DB.insert_winner name uid now).

(** [UPDATE raffles SET archived = 1 WHERE raffle_name = :name] and
    [DELETE FROM archive_schedule WHERE raffle_name=:name], one
    transaction.  [up] says whether the store can be reached when the
    transaction is opened; when it cannot, the call raises and nothing
    is written. *)
Definition db_archive_raffle (name : string) (up : bool) : M unit :=
  if up then
    transaction (λ d, DB.Ok
      (DB.set_archive_schedule (delete name (DB.archive_schedule d))
         (DB.set_raffles
            (alter (λ r, DB.mkRaffleRow (DB.created_at r) 1) name
                   (DB.raffles d)) d)))
  else raise (DbError DB.OperationalError).

Definition db_is_archived (name : string) (d : DB.t) : bool :=
  match DB.raffles d !! name with
  | Some r => bool_decide (DB.archived r = 1)
  | None => false
  end.

Definition db_get_active_raffles (d : DB.t) : list string :=
  (map_to_list (filter (λ p, DB.archived p.2 = 0) (DB.raffles d))).*1.

Definition db_schedule_archive (name : string) (when : Z) : M unit :=
  transaction (λ d, DB.Ok
    (DB.set_archive_schedule (<[name := when]> (DB.archive_schedule d)) d)).

(** [SELECT raffle_name FROM archive_schedule WHERE archive_at <= :now] *)
Definition db_get_due_archives (now : Z) (d : DB.t) : list string :=
  (filter (λ p, p.2 ≤ now) (map_to_list (DB.archive_schedule d))).*1.

Definition is_blacklisted (uid : Z) (d : DB.t) : bool :=
  bool_decide (uid ∈ DB.blacklist d).

(** ** Startup: [load_state_from_db] (lines 131-158) *)

(** The active raffles, each with an empty winner list, then every
    winner row of an active raffle appended in row order
    ([raffles.setdefault(name, []).append(uid)]). *)
Definition load_raffles (d : DB.t) : gmap string (list Z) :=
  foldl (λ m r,
           match DB.raffles d !! DB.raffle_name r with
           | Some row =>
               if bool_decide (DB.archived row = 0)
               then <[DB.raffle_name r :=
                        default [] (m !! DB.raffle_name r) ++ [DB.user_id r]]> m
               else m
           | None => m
           end)
        ((λ _, []) <$> filter (λ p, DB.archived p.2 = 0) (DB.raffles d))
        (DB.raffle_winners d).

(** [user_links] and [user_stats] are not cleared: each row of the
    store overwrites the entry of its user.  The other three containers
    are cleared and refilled. *)
Definition load_state_from_db : M unit :=
  st ← get_state;
  let d := db st in
  modify_cache (λ c,
    mkCache (DB.users d ∪ user_links c)
            (DB.stats d ∪ user_stats c)
            (load_raffles d)
            (DB.picks_state d)
            (DB.always_pick d)).

(** [on_ready]: [db_init] creates tables that do not exist yet and
    changes no row. *)
Definition on_ready : M unit := load_state_from_db.

(** ** The archive scheduler: [archive_watcher] (lines 268-276)

    [up name] says whether the store can be reached when the entry
    [name] is archived. *)
Definition archive_watcher (now : Z) (up : string → bool) : M unit :=
  st ← get_state;
  let due := db_get_due_archives now (db st) in
  match due with
  | [] => mret ()
  | _ =>
      for_each due (λ name,
        db_archive_raffle name (up name) ;;
        modify_cache (λ c, set_raffles (delete name (raffles c)) c))
  end.

(** ** The platform, as the commands see it *)

Inductive Status := online | idle | dnd | offline.

#[export] Instance Status_eq_dec : EqDecision Status.
Proof. solve_decision. Defined.

(** [get_member uid] is the presence status of a current member, [None]
    for someone who is not in the guild.  [winner_role] says whether a
    role named "Winner" exists; [create_role_ok] and [add_roles_ok w]
    say whether [guild.create_role] and [w.add_roles] return rather
    than raise. *)
Record Guild := mkGuild {
  get_member : Z → option Status;
  winner_role : bool;
  create_role_ok : bool;
  add_roles_ok : Z → bool
}.

(** What a command sends back. *)
Inductive reply :=
| Usage
| InvalidLink
| AlreadyRegistered (link : string)
| YouAreBlacklisted
| Registered
| NotRegistered
| NoPermission
| Unregistered
| NoEligibleUsers
| Winners (ws : list Z)
| NoWinnersFound
| Done.

(** ** Randomness

    The generator is an input: a stream of numbers, one per draw.
    [random_sample population k rng] picks [k] positions without
    replacement, the [j]-th among the elements still left; every
    ordered selection of [k] distinct elements is the result for some
    stream.  [random_shuffle] is the ordered selection of all
    elements. *)
Fixpoint random_sample (population : list Z) (k : nat) (rng : list nat)
    : list Z :=
  match k with
  | O => []
  | S k' =>
      let i := (hd 0 rng `mod` length population)%nat in
      match population !! i with
      | Some x => x :: random_sample (delete i population) k' (tl rng)
      | None => []
      end
  end.

Definition random_shuffle (l : list Z) (rng : list nat) : list Z :=
  random_sample l (length l) rng.

(** ** [register] (lines 299-321) *)

(** [A-Za-z0-9_] *)
Definition is_word_char (c : ascii) : bool :=
  let n := nat_of_ascii c in
  ((65 <=? n) && (n <=? 90) || (97 <=? n) && (n <=? 122)
   || (48 <=? n) && (n <=? 57) || (n =? 95))%nat.

(** [[A-Za-z0-9_]+$]: one or more word characters up to the end of the
    string or up to a final newline. *)
Fixpoint username_ok (s : string) : bool :=
  match s with
  | EmptyString => false
  | String c rest =>
      is_word_char c &&
      match rest with
      | EmptyString => true
      | String "010"%char EmptyString => true
      | _ => username_ok rest
      end
  end.

Fixpoint strip_prefix (p s : string) : option string :=
  match p, s with
  | EmptyString, _ => Some s
  | String a p', String b s' =>
      if bool_decide (a = b) then strip_prefix p' s' else None
  | String _ _, EmptyString => None
  end.

(** [re.match(r"^https:\/\/(x\.com|twitter\.com)\/[A-Za-z0-9_]+$", link)] *)
Definition link_ok (link : string) : bool :=
  match strip_prefix "https://x.com/" link with
  | Some rest => username_ok rest
  | None =>
      match strip_prefix "https://twitter.com/" link with
      | Some rest => username_ok rest
      | None => false
      end
  end.

(** [user_stats.setdefault(uid, {"registrations": 0, "wins": 0})]
    followed by an in-place update of the entry. *)
Definition bump_stat (uid delta_reg delta_wins : Z) (c : Cache) : Cache :=
  let st := default (mkStat 0 0) (user_stats c !! uid) in
  set_user_stats
    (<[uid := mkStat (registrations st + delta_reg) (wins st + delta_wins)]>
       (user_stats c)) c.

Definition register (author : Z) (link : option string) : M reply :=
  match link with
  | None => mret Usage
  | Some link =>
      if bool_decide (link = "") then mret Usage
      else if negb (link_ok link) then mret InvalidLink
      else
        st ← get_state;
        match user_links (cache st) !! author with
        | Some l => mret (AlreadyRegistered l)
        | None =>
            if is_blacklisted author (db st) then mret YouAreBlacklisted
            else
              modify_cache (λ c,
                set_user_links (<[author := link]> (user_links c)) c) ;;
              db_upsert_user author link ;;
              modify_cache (bump_stat author 1 0) ;;
              db_update_stat author 1 0 ;;
              mret Registered
        end
  end.

(** ** [unregister] (lines 323-362)

    [member] is the optional argument; the author's administrator
    permission is only looked at when it is given. *)
Definition unregister (author : Z) (administrator : bool)
    (member : option Z) : M reply :=
  let target := default author member in
  st ← get_state;
  if bool_decide (DB.users (db st) !! target = None) then mret NotRegistered
  else if bool_decide (is_Some member) && negb administrator
  then mret NoPermission
  else
    modify_cache (λ c,
      mkCache (delete target (user_links c))
              (delete target (user_stats c))
              (raffles c)
              (already_picked c ∖ {[target]})
              (always_pick c ∖ {[target]})) ;;
    transaction (λ d,
      DB.and_then (DB.delete_user target d) (λ d,
      DB.and_then (DB.Ok (DB.set_stats (delete target (DB.stats d)) d)) (λ d,
      DB.and_then
        (DB.Ok (DB.set_always_pick (DB.always_pick d ∖ {[target]}) d)) (λ d,
      DB.and_then (DB.delete_winners_of target d) (λ d,
      DB.Ok (DB.set_picks_state (DB.picks_state d ∖ {[target]}) d)))))) ;;
    mret Unregistered.

(** ** [pick] (lines 488-568) *)

Definition priority_winners (c : Cache) (d : DB.t) (g : Guild) : list Z :=
  filter (λ uid, is_Some (get_member g uid)
                 ∧ (uid ∉ already_picked c)
                 ∧ is_blacklisted uid d = false)
         (elements (always_pick c)).

Definition eligible (c : Cache) (d : DB.t) (g : Guild) : list Z :=
  filter (λ uid, is_Some (get_member g uid)
                 ∧ (uid ∉ already_picked c)
                 ∧ get_member g uid = Some online
                 ∧ (uid ∉ always_pick c)
                 ∧ is_blacklisted uid d = false)
         (map_to_list (user_links c)).*1.

(** Lines 516-523: the winner list before it is shuffled, and what is
    left of the random stream. *)
Definition select_winners (c : Cache) (d : DB.t) (g : Guild) (number : Z)
    (rng : list nat) : list Z * list nat :=
  let winners : list Z := [] in
  let '(winners, number) :=
    match priority_winners c d g with
    | [] => (winners, number)
    | pw => (winners ++ pw, number - Z.of_nat (length pw))
    end in
  if bool_decide (0 < number) && bool_decide (eligible c d g ≠ [])
  then
    let k := Z.to_nat (Z.min number (Z.of_nat (length (eligible c d g)))) in
    (winners ++ random_sample (eligible c d g) k rng, drop k rng)
  else (winners, rng).

(** The part of the winner list that is drawn at random. *)
Definition random_part (c : Cache) (d : DB.t) (g : Guild) (number : Z)
    (rng : list nat) : list Z :=
  let n := number - Z.of_nat (length (priority_winners c d g)) in
  if bool_decide (0 < n) && bool_decide (eligible c d g ≠ [])
  then random_sample (eligible c d g)
         (Z.to_nat (Z.min n (Z.of_nat (length (eligible c d g))))) rng
  else [].

(** Line 529: the winner list as announced and recorded. *)
Definition draw_winners (c : Cache) (d : DB.t) (g : Guild) (number : Z)
    (rng : list nat) : list Z :=
  let '(winners, rng') := select_winners c d g number rng in
  random_shuffle winners rng'.

(** The body of the loop of lines 541-559 for one winner. *)
Definition record_winner (g : Guild) (raffle_name : string) (now w : Z)
    : M unit :=
  modify_cache (λ c, set_already_picked ({[w]} ∪ already_picked c) c) ;;
  (st ← get_state;
   match raffles (cache st) !! raffle_name with
   | Some l =>
       modify_cache (λ c,
         set_raffles (<[raffle_name := l ++ [w]]> (raffles c)) c)
   | None => raise KeyError
   end) ;;
  db_add_winner raffle_name w now ;;
  db_set_picked w true ;;
  db_update_stat w 0 1 ;;
  modify_cache (bump_stat w 0 1) ;;
  (if add_roles_ok g w then mret () else raise DiscordError).

Definition pick (g : Guild) (rng : list nat) (now : Z)
    (raffle_name : string) (number : Z) : M reply :=
  st ← get_state;
  match (select_winners (cache st) (db st) g number rng).1 with
  | [] => mret NoEligibleUsers
  | _ =>
      let winners := draw_winners (cache st) (db st) g number rng in
      modify_cache (λ c,
        match raffles c !! raffle_name with
        | Some _ => c
        | None => set_raffles (<[raffle_name := []]> (raffles c)) c
        end) ;;
      db_create_raffle raffle_name now ;;
      (if winner_role g then mret ()
       else if create_role_ok g then mret () else raise DiscordError) ;;
      for_each winners (record_winner g raffle_name now) ;;
      mret (Winners winners)
  end.

(** ** The other commands that write *)

Definition reset_picks : M reply :=
  modify_cache (set_already_picked ∅) ;;
  db_reset_picks ;;
  mret Done.

Definition blacklist (member : Z) : M reply :=
  transaction (λ d, DB.Ok (DB.set_blacklist ({[member]} ∪ DB.blacklist d) d)) ;;
  mret Done.

Definition unblacklist (member : Z) : M reply :=
  transaction (λ d, DB.Ok (DB.set_blacklist (DB.blacklist d ∖ {[member]}) d)) ;;
  mret Done.

(** [profile] writes too: [user_stats.setdefault(user.id, {..})]. *)
Definition profile (user : Z) : M reply :=
  modify_cache (bump_stat user 0 0) ;;
  mret Done.

Definition always_add (member : Z) : M reply :=
  modify_cache (λ c, set_always_pick ({[member]} ∪ always_pick c) c) ;;
  db_set_always member true ;;
  mret Done.

Definition always_remove (member : Z) : M reply :=
  modify_cache (λ c, set_always_pick (always_pick c ∖ {[member]}) c) ;;
  db_set_always member false ;;
  mret Done.

(** [ExportButtons._handle_export] (lines 834-868), with the file
    written and sent: the raffle is scheduled for archival five minutes
    later. *)
Definition handle_export (name : string) (now : Z) : M reply :=
  st ← get_state;
  let has_winners :=
    match raffles (cache st) !! name with
    | Some l => bool_decide (l ≠ [])
    | None =>
        bool_decide (Exists (λ r, DB.raffle_name r = name)
                            (DB.raffle_winners (db st)))
    end in
  if has_winners
  then db_schedule_archive name (now + 300) ;; mret Done
  else mret NoWinnersFound.

Definition reset_db : M reply :=
  transaction (λ d,
    DB.and_then (DB.delete_all_users d) (λ d,
    DB.and_then (DB.delete_all_raffles d) (λ d,
    DB.Ok DB.empty))) ;;
  modify_cache (λ _, empty_cache) ;;
  mret Done.

Definition reset_raffles : M reply :=
  transaction (λ d,
    DB.and_then (DB.delete_all_raffles d) (λ d,
    DB.Ok (DB.set_archive_schedule ∅
            (DB.set_picks_state ∅
              (DB.set_raffle_winners []
                (DB.set_stats ∅ d)))))) ;;
  modify_cache (λ c,
    mkCache (user_links c) ∅ ∅ ∅ (always_pick c)) ;;
  mret Done.

(** ** Runs

    One constructor per event that can change the state.  A command
    guarded by [has_permissions(administrator=True)] stands for an
    invocation by an administrator; any other invocation is rejected by
    the framework before the body runs. *)
Inductive command :=
| Register (author : Z) (link : option string)
| Unregister (author : Z) (administrator : bool) (member : option Z)
| Blacklist (member : Z)
| Unblacklist (member : Z)
| Pick (g : Guild) (rng : list nat) (now : Z) (raffle_name : string)
       (number : Z)
| ResetPicks
| Profile (user : Z)
| AlwaysAdd (member : Z)
| AlwaysRemove (member : Z)
| Export (raffle_name : string) (now : Z)
| Tick (now : Z) (up : string → bool)
| Ready
| Restart
| ResetDb
| ResetRaffles.

(** [Restart] is a new process: empty containers, then [on_ready]. *)
Definition run (cmd : command) (st : State) : State :=
  match cmd with
  | Register a l => exec (register a l) st
  | Unregister a adm m => exec (unregister a adm m) st
  | Blacklist m => exec (blacklist m) st
  | Unblacklist m => exec (unblacklist m) st
  | Pick g rng now name n => exec (pick g rng now name n) st
  | ResetPicks => exec reset_picks st
  | Profile u => exec (profile u) st
  | AlwaysAdd m => exec (always_add m) st
  | AlwaysRemove m => exec (always_remove m) st
  | Export name now => exec (handle_export name now) st
  | Tick now up => exec (archive_watcher now up) st
  | Ready => exec on_ready st
  | Restart => exec on_ready (mkState empty_cache (db st))
  | ResetDb => exec reset_db st
  | ResetRaffles => exec reset_raffles st
  end.

Definition run_all (cmds : list command) (st : State) : State :=
  foldl (λ st cmd, run cmd st) st cmds.

(** A new deployment: nothing cached, every table empty. *)
Definition init : State := mkState empty_cache DB.empty.


(** ** What the helpers write, as functions on the store

    [db_upsert_user] and [db_update_stat] always succeed; these are the
    tables they leave (lemmas [db_upsert_user_run] and
    [db_update_stat_run]). *)

Definition upsert_user_db (uid : Z) (link : string) (d : DB.t) : DB.t :=
  let d1 := DB.set_users (<[uid := link]> (DB.users d)) d in
  match DB.stats d !! uid with
  | Some _ => d1
  | None => DB.set_stats (<[uid := mkStat 0 0]> (DB.stats d)) d1
  end.

Definition update_stat_db (uid delta_reg delta_wins : Z) (d : DB.t) : DB.t :=
  let d1 := upsert_user_db uid "" d in
  let st := default (mkStat 0 0) (DB.stats d !! uid) in
  DB.set_stats
    (<[uid := mkStat (registrations st + delta_reg) (wins st + delta_wins)]>
       (DB.stats d1)) d1.

(** ** What a draw writes, as functions on the state

    Lemma [pick_run] shows that [pick] computes exactly these. *)

(** Lines 531-533: the raffle is opened in the cache and in the store. *)
Definition open_raffle (raffle_name : string) (now : Z) (st : State) : State :=
  mkState
    (match raffles (cache st) !! raffle_name with
     | Some _ => cache st
     | None => set_raffles (<[raffle_name := []]> (raffles (cache st))) (cache st)
     end)
    (match DB.raffles (db st) !! raffle_name with
     | Some _ => db st
     | None =>
         DB.set_raffles
           (<[raffle_name := DB.mkRaffleRow now 0]> (DB.raffles (db st))) (db st)
     end).

Definition insert_winner_db (name : string) (uid now : Z) (d : DB.t) : DB.t :=
  if DB.has_winner name uid d then d
  else DB.set_raffle_winners
         (DB.raffle_winners d ++ [DB.mkWinnerRow name uid now]) d.

(** Lines 542-552 for one winner of an open raffle. *)
Definition record_winner_state (raffle_name : string) (now : Z)
    (st : State) (w : Z) : State :=
  let c := cache st in
  let d := insert_winner_db raffle_name w now (db st) in
  mkState
    (bump_stat w 0 1
       (set_raffles
          (<[raffle_name := default [] (raffles c !! raffle_name) ++ [w]]>
             (raffles c))
          (set_already_picked ({[w]} ∪ already_picked c) c)))
    (update_stat_db w 0 1
       (DB.set_picks_state ({[w]} ∪ DB.picks_state d) d)).

(** The winners the loop gets to: all of them, or those up to and
    including the first whose role grant raises. *)
Fixpoint processed (g : Guild) (ws : list Z) : list Z :=
  match ws with
  | [] => []
  | w :: ws' => if add_roles_ok g w then w :: processed g ws' else [w]
  end.

Definition record_winners (raffle_name : string) (now : Z) (ws : list Z)
    (st : State) : State :=
  foldl (record_winner_state raffle_name now) st ws.

(** ** Observations *)

(** The wins counter of a user in the store and in the cache; a user
    without a row has no wins. *)
Definition db_wins (d : DB.t) (uid : Z) : Z :=
  default 0 (wins <$> DB.stats d !! uid).

Definition cache_wins (c : Cache) (uid : Z) : Z :=
  default 0 (wins <$> user_stats c !! uid).

(** The number of winner rows of a user, over all raffles. *)
Definition win_rows (d : DB.t) (uid : Z) : Z :=
  Z.of_nat (length (filter (λ r, DB.user_id r = uid) (DB.raffle_winners d))).

(** ** Wins and winner rows *)

(** Every stored wins counter is the number of winner rows of its
    user. *)
Definition wins_match (d : DB.t) : Prop :=
  ∀ uid, db_wins d uid = win_rows d uid.

(** No user has more winner rows than stored wins. *)
Definition wins_cover (d : DB.t) : Prop :=
  ∀ uid, win_rows d uid ≤ db_wins d uid.

Definition draw_or_reset (cmd : command) : Prop :=
  match cmd with
  | Pick _ _ _ _ _ | ResetPicks => True
  | _ => False
  end.

(** No draw of the run selects a user who already has a winner row
    under the name that is drawn. *)
Fixpoint fresh_draws (cmds : list command) (st : State) : Prop :=
  match cmds with
  | [] => True
  | cmd :: cmds' =>
      match cmd with
      | Pick g rng now name number =>
          Forall (λ w, DB.has_winner name w (db st) = false)
                 (draw_winners (cache st) (db st) g number rng)
      | _ => True
      end
      ∧ fresh_draws cmds' (run cmd st)
  end.

(** ** What a tick of the archive scheduler writes *)

(** The due entries a tick gets through: those before the first entry
    at which the store cannot be reached. *)
Fixpoint archived_by (up : string → bool) (due : list string) : list string :=
  match due with
  | [] => []
  | name :: due' => if up name then name :: archived_by up due' else []
  end.

Definition archive_row (r : DB.RaffleRow) : DB.RaffleRow :=
  DB.mkRaffleRow (DB.created_at r) 1.

(** Lines 275-276 for one entry. *)
Definition archive_state (st : State) (name : string) : State :=
  mkState
    (set_raffles (delete name (raffles (cache st))) (cache st))
    (DB.set_archive_schedule (delete name (DB.archive_schedule (db st)))
       (DB.set_raffles (alter archive_row name (DB.raffles (db st))) (db st))).

(** ** The cache and the active raffles *)

(** A name is a key of the cached [raffles] exactly when the store has
    a raffle row of that name with [archived = 0]. *)
Definition cache_mirrors_active (st : State) : Prop :=
  ∀ name,
    is_Some (raffles (cache st) !! name)
    ↔ ∃ row, DB.raffles (db st) !! name = Some row ∧ DB.archived row = 0.




(** ** Integrity of the store *)

Definition winner_key (r : DB.WinnerRow) : string * Z :=
  (DB.raffle_name r, DB.user_id r).

(** What holds of the store between commands: the two foreign keys,
    the primary key of [raffle_winners], and a [stats] row for every
    user with a winner row. *)
Record store_ok (d : DB.t) : Prop := mkStoreOk {
  stats_fk : ∀ uid, is_Some (DB.stats d !! uid) → is_Some (DB.users d !! uid);
  winners_fk : ∀ r, r ∈ DB.raffle_winners d →
                    is_Some (DB.raffles d !! DB.raffle_name r);
  winners_stats : ∀ r, r ∈ DB.raffle_winners d →
                       is_Some (DB.stats d !! DB.user_id r);
  winners_pk : NoDup (winner_key <$> DB.raffle_winners d)
}.

(** Every winner row of [d] is a row of [d'], unchanged. *)
Definition keeps_rows (d d' : DB.t) : Prop :=
  ∀ r, r ∈ DB.raffle_winners d → r ∈ DB.raffle_winners d'.

(** From a sound store, a sound store that has kept every winner
    row. *)
Definition sound_step (d d' : DB.t) : Prop :=
  store_ok d → store_ok d' ∧ keeps_rows d d'.

(** A command is [stepwise R] when the store it leaves, returning or
    raising, is [R]-related to the store it found. *)
Definition stepwise (R : relation DB.t) {A} (m : M A) : Prop :=
  ∀ st, R (db st) (db (m st).2).

(** ** Scenarios used below *)

Definition alice : option string := Some "https://x.com/alice".

(** A guild whose members are exactly [members], all online, with the
    Winner role in place and every role grant accepted. *)
Definition guild_of (members : list Z) : Guild :=
  mkGuild (λ u, if bool_decide (u ∈ members) then Some online else None)
          true true (λ _, true).

(** The scenario of the specification: always-pick holds user 1, users
    2, 3 and 4 are registered, everybody is online. *)
Definition spaceA_state : State :=
  run_all [Register 2 alice; Register 3 alice; Register 4 alice; AlwaysAdd 1]
          init.

(** Two always-pick members, nobody registered. *)
Definition two_priority_state : State :=
  run_all [AlwaysAdd 1; AlwaysAdd 2] init.

(** User 1 is in the always-pick set and in the blacklist. *)
Definition blacklisted_priority_state : State :=
  run_all [Register 2 alice; Blacklist 1; AlwaysAdd 1] init.

(** Users 2 and 3 are registered and are members, but idle. *)
Definition idle_state : State :=
  run_all [Register 2 alice; Register 3 alice] init.

Definition idle_guild : Guild :=
  mkGuild (λ u, if bool_decide (u ∈ [2; 3]) then Some idle else None)
          true true (λ _, true).

(** The store in the middle of [register], after line 317: the link is
    stored, the counters are zero. *)
Definition linked_state : State :=
  exec (db_upsert_user 1 "https://x.com/alice") init.

(** A guild of members 1 and 2, online, where granting the role to
    user 1 or to user 2 is refused. *)
Definition refusing_guild : Guild :=
  mkGuild (λ u, if bool_decide (u ∈ [1; 2]) then Some online else None)
          true true (λ _, false).

(** User 1 is registered; no draw has taken place. *)
Definition registered_state : State := run (Register 1 alice) init.


(** A store in which raffle "SpaceA", won by user 1, is archived, and
    the picks have been reset. *)
Definition archived_store : DB.t :=
  db (run_all [Register 1 alice;
               Pick (guild_of [1]) [] 10 "SpaceA" 1;
               Export "SpaceA" 20;
               Tick 400 (λ _, true);
               ResetPicks] init).

(** User 1 registers and wins "SpaceA" at time 10. *)
Definition one_win : list command :=
  [Register 1 alice; Pick (guild_of [1]) [] 10 "SpaceA" 1].

(** ** The X username of a link (lines 557-558 and 726-727)

    [x_link.split("/")]: the pieces of the string between slashes. *)
Fixpoint split_slash (s : string) : list string :=
  match s with
  | EmptyString => [EmptyString]
  | String c rest =>
      if bool_decide (c = "/"%char) then EmptyString :: split_slash rest
      else match split_slash rest with
           | piece :: pieces => String c piece :: pieces
           | [] => [String c EmptyString]
           end
  end.

(** [x_link.split("/")[-1] if x_link else "-"] *)
Definition x_username (x_link : string) : string :=
  if bool_decide (x_link = "") then "-"
  else List.last (split_slash x_link) "".

(** The state a completed [register] leaves (lemma [register_run]). *)
Definition registered (author : Z) (link : string) (st : State) : State :=
  mkState
    (bump_stat author 1 0
       (set_user_links (<[author := link]> (user_links (cache st))) (cache st)))
    (update_stat_db author 1 0 (upsert_user_db author link (db st))).

(** ** The life of a raffle row *)

(** Every raffle row of [d] is still a row of [d'], created at the
    same time, and archived if it was. *)
Definition raffles_progress (d d' : DB.t) : Prop :=
  ∀ name row, DB.raffles d !! name = Some row →
    ∃ row', DB.raffles d' !! name = Some row'
            ∧ DB.created_at row' = DB.created_at row
            ∧ (DB.archived row = 1 → DB.archived row' = 1).

Definition not_a_reset (cmd : command) : Prop :=
  match cmd with
  | ResetDb | ResetRaffles => False
  | _ => True
  end.

(** ** The cached sets and their tables *)

(** The cached picked state and always-pick set hold what their tables
    hold. *)
Definition sets_mirror (st : State) : Prop :=
  already_picked (cache st) = DB.picks_state (db st)
  ∧ always_pick (cache st) = DB.always_pick (db st).

Definition not_unregister (cmd : command) : Prop :=
  match cmd with
  | Unregister _ _ _ => False
  | _ => True
  end.

(** ** Reading the store *)

(** A raffle row of this name exists with [archived = 0]. *)
Definition is_active (name : string) (d : DB.t) : bool :=
  match DB.raffles d !! name with
  | Some row => bool_decide (DB.archived row = 0)
  | None => false
  end.

(** The users of the winner rows of a raffle, in row order. *)
Definition winners_of (name : string) (rows : list DB.WinnerRow) : list Z :=
  DB.user_id <$> filter (λ r, DB.raffle_name r = name) rows.

(** ** [list_users]: batches of mentions (lines 466-486)

    The loop over the mentions: [sent] are the batches already sent,
    [batch] is the batch being filled and [total_chars] its size. *)
Fixpoint batch_loop (users : list string) (sent : list (list string))
    (batch : list string) (total_chars : Z)
    : list (list string) * list string :=
  match users with
  | [] => (sent, batch)
  | user :: users' =>
      if 5500 <? total_chars + Z.of_nat (String.length user)
      then batch_loop users' (sent ++ [batch]) [user]
                      (Z.of_nat (String.length user))
      else batch_loop users' sent (batch ++ [user])
                      (total_chars + Z.of_nat (String.length user))
  end.

(** The batches sent for a list of mentions, the last one only if it
    is not empty ([if batch:]). *)
Definition send_batches (users : list string) : list (list string) :=
  let '(sent, batch) := batch_loop users [] [] 0 in
  match batch with
  | [] => sent
  | _ => sent ++ [batch]
  end.

(** The number of characters of a batch. *)
Definition chars (batch : list string) : Z :=
  foldr (λ user n, Z.of_nat (String.length user) + n) 0 batch.

(** ** [status] (lines 584-601) *)

Definition status_online (c : Cache) (g : Guild) : list Z :=
  filter (λ uid, is_Some (get_member g uid) ∧ get_member g uid ≠ Some offline)
         (map_to_list (user_links c)).*1.

Definition status_offline (c : Cache) (g : Guild) : list Z :=
  filter (λ uid, uid ∉ status_online c g) (map_to_list (user_links c)).*1.

(** ** The store after a run from a new deployment *)

Definition blacklisted_state : State := run (Blacklist 9) init.
(** * Properties *)

(** ** The monad *)

Lemma bind_unfold {A B} (m : M A) (k : A → M B) (st : State) :
  (m ≫= k) st =
  match m st with
  | (Return a, st') => k a st'
  | (Raise e, st') => (Raise e, st')
  end.
Proof. reflexivity. Qed.

Lemma exec_bind_return {A B} (m : M A) (k : A → M B) st a st' :
  m st = (Return a, st') → exec (m ≫= k) st = exec (k a) st'.
Proof. intros H. unfold exec. rewrite bind_unfold, H. reflexivity. Qed.

Lemma exec_bind_raise {A B} (m : M A) (k : A → M B) st e st' :
  m st = (Raise e, st') → exec (m ≫= k) st = st'.
Proof. intros H. unfold exec. rewrite bind_unfold, H. reflexivity. Qed.

Lemma transaction_ok f st d :
  f (db st) = DB.Ok d → transaction f st = (Return (), mkState (cache st) d).
Proof. intros H. unfold transaction. by rewrite H. Qed.

Lemma transaction_err f st e :
  f (db st) = DB.Err e → transaction f st = (Raise (DbError e), st).
Proof. intros H. unfold transaction. by rewrite H. Qed.

(** ** The store helpers never fail where the code relies on them *)

Lemma db_upsert_user_run uid link st :
  db_upsert_user uid link st
  = (Return (), mkState (cache st) (upsert_user_db uid link (db st))).
Proof.
  unfold db_upsert_user. apply transaction_ok.
  unfold upsert_user_db, DB.upsert_users, DB.and_then, DB.insert_stats.
  simpl. destruct (DB.stats (db st) !! uid); [done|].
  rewrite bool_decide_eq_true_2; [done|].
  rewrite lookup_insert_eq. by eexists.
Qed.

Lemma upsert_user_db_stats uid link d :
  is_Some (DB.stats (upsert_user_db uid link d) !! uid).
Proof.
  unfold upsert_user_db. destruct (DB.stats d !! uid) eqn:H; simpl.
  - rewrite H. by eexists.
  - rewrite lookup_insert_eq. by eexists.
Qed.

Lemma db_update_stat_run uid delta_reg delta_wins st :
  db_update_stat uid delta_reg delta_wins st
  = (Return (),
     mkState (cache st) (update_stat_db uid delta_reg delta_wins (db st))).
Proof.
  unfold db_update_stat. rewrite bind_unfold, db_upsert_user_run.
  erewrite transaction_ok; [reflexivity|]. simpl.
  unfold update_stat_db, DB.insert_stats.
  unfold upsert_user_db. destruct (DB.stats (db st) !! uid) eqn:H; simpl.
  - by rewrite H.
  - by rewrite lookup_insert_eq.
Qed.

(** ** Sampling *)

Lemma random_sample_length population k rng :
  length (random_sample population k rng) = (k `min` length population)%nat.
Proof.
  revert population rng.
  induction k as [|k IH]; intros population rng; simpl; [done|].
  destruct population as [|x0 population'] eqn:Hp.
  - rewrite lookup_nil. simpl. lia.
  - rewrite <- Hp.
    assert (Hlt : (hd 0 rng `mod` length population < length population)%nat).
    { apply Nat.mod_upper_bound. rewrite Hp. simpl. lia. }
    destruct (lookup_lt_is_Some_2 _ _ Hlt) as [x Hx].
    rewrite Hx. simpl. rewrite IH, length_delete by eauto.
    assert (0 < length population)%nat by (rewrite Hp; simpl; lia).
    clear Hlt Hx. destruct (length population); simpl; lia.
Qed.

Lemma random_sample_submseteq population k rng :
  random_sample population k rng ⊆+ population.
Proof.
  revert population rng.
  induction k as [|k IH]; intros population rng; simpl.
  - apply submseteq_nil_l.
  - destruct (population !! _) as [x|] eqn:Hx; [|apply submseteq_nil_l].
    trans (x :: delete (hd 0 rng `mod` length population)%nat population).
    + apply submseteq_skip, IH.
    + apply Permutation_submseteq. symmetry. by apply delete_Permutation.
Qed.

Lemma submseteq_NoDup_Z (l k : list Z) : l ⊆+ k → NoDup k → NoDup l.
Proof.
  intros Hsub Hk. apply submseteq_Permutation in Hsub as [k' Hk'].
  rewrite Hk' in Hk. by apply NoDup_app in Hk as [? _].
Qed.

Lemma random_shuffle_Permutation l rng : random_shuffle l rng ≡ₚ l.
Proof.
  unfold random_shuffle.
  apply submseteq_length_Permutation.
  - apply random_sample_submseteq.
  - rewrite random_sample_length. lia.
Qed.

(** ** The selection *)

Lemma select_winners_eq c d g number rng :
  select_winners c d g number rng =
  let n := number - Z.of_nat (length (priority_winners c d g)) in
  if bool_decide (0 < n) && bool_decide (eligible c d g ≠ [])
  then
    let k := Z.to_nat (Z.min n (Z.of_nat (length (eligible c d g)))) in
    (priority_winners c d g ++ random_sample (eligible c d g) k rng,
     drop k rng)
  else (priority_winners c d g, rng).
Proof.
  unfold select_winners.
  destruct (priority_winners c d g) as [|u pw]; simpl.
  - change (Z.of_nat 0) with 0. by rewrite Z.sub_0_r.
  - reflexivity.
Qed.

Lemma select_winners_split c d g number rng :
  (select_winners c d g number rng).1 =
  priority_winners c d g ++ random_part c d g number rng.
Proof.
  rewrite select_winners_eq. unfold random_part. simpl.
  destruct (_ && _); simpl; [done|]. by rewrite app_nil_r.
Qed.

Lemma random_part_submseteq c d g number rng :
  random_part c d g number rng ⊆+ eligible c d g.
Proof.
  unfold random_part. simpl. destruct (_ && _).
  - apply random_sample_submseteq.
  - apply submseteq_nil_l.
Qed.

Lemma random_part_length c d g number rng :
  Z.of_nat (length (random_part c d g number rng)) =
  Z.min (Z.max 0 (number - Z.of_nat (length (priority_winners c d g))))
        (Z.of_nat (length (eligible c d g))).
Proof.
  unfold random_part. simpl.
  destruct (bool_decide (0 < _)) eqn:Hn; simpl.
  - apply bool_decide_eq_true in Hn.
    destruct (bool_decide (eligible c d g ≠ [])) eqn:He; simpl.
    + rewrite random_sample_length. lia.
    + apply bool_decide_eq_false in He.
      assert (eligible c d g = []) as ->.
      { destruct (eligible c d g); [done|]. by destruct He. }
      simpl. lia.
  - apply bool_decide_eq_false in Hn. simpl. lia.
Qed.

Lemma draw_winners_Permutation c d g number rng :
  draw_winners c d g number rng ≡ₚ
  priority_winners c d g ++ random_part c d g number rng.
Proof.
  unfold draw_winners.
  rewrite <- select_winners_split.
  destruct (select_winners c d g number rng) as [ws rng'].
  apply random_shuffle_Permutation.
Qed.

Lemma priority_winners_NoDup c d g : NoDup (priority_winners c d g).
Proof. apply NoDup_filter, NoDup_elements. Qed.

Lemma eligible_NoDup c d g : NoDup (eligible c d g).
Proof. apply NoDup_filter, NoDup_fst_map_to_list. Qed.

Lemma draw_winners_NoDup c d g number rng :
  NoDup (draw_winners c d g number rng).
Proof.
  rewrite draw_winners_Permutation.
  apply NoDup_app. split; [apply priority_winners_NoDup|]. split.
  - intros u Hp He.
    apply (λ H, elem_of_submseteq _ _ _ H (random_part_submseteq c d g number rng)) in He.
    unfold priority_winners in Hp. unfold eligible in He.
    apply list_elem_of_filter in Hp as [_ Hp].
    apply list_elem_of_filter in He as [(_ & _ & _ & He & _) _].
    apply elem_of_elements in Hp. done.
  - eapply submseteq_NoDup_Z; [apply random_part_submseteq|].
    apply eligible_NoDup.
Qed.

(** What [pick] replies. *)
Lemma pick_reply g rng now name number st r st' :
  pick g rng now name number st = (Return r, st') →
  (r = NoEligibleUsers ∧ (select_winners (cache st) (db st) g number rng).1 = [])
  ∨ (r = Winners (draw_winners (cache st) (db st) g number rng)
     ∧ (select_winners (cache st) (db st) g number rng).1 ≠ []).
Proof.
  unfold pick. rewrite bind_unfold. simpl.
  destruct (select_winners _ _ _ _ _).1 as [|w ws] eqn:Hs.
  - intros [= <- <-]. by left.
  - intros H. right. split; [|done].
    repeat (rewrite bind_unfold in H;
            match type of H with
            | context [match ?m with _ => _ end] =>
                destruct m as [[[]|?] ?]; try discriminate
            end).
    by injection H as <- _.
Qed.

(** ** C1: size and content of the winner list *)

(** C1 (as amended).  For every draw that returns a winner list [ws]
    for a requested count [number]: [ws] holds
    [max(|priority|, min(number, |priority| + |pool|))] users, it
    contains every priority winner, and it is a rearrangement of the
    priority winners followed by a random remainder taken without
    repetition from the pool, of size [max(0, number - |priority|)]
    capped at [|pool|].  The list has no duplicates and never exceeds
    [max(number, |priority|)]: all priority winners are taken, also
    when there are more of them than [number]. *)
Theorem C1_winner_list_size g rng now name number st ws st' :
  pick g rng now name number st = (Return (Winners ws), st') →
  let priority := priority_winners (cache st) (db st) g in
  let pool := eligible (cache st) (db st) g in
  Z.of_nat (length ws) =
    Z.max (Z.of_nat (length priority))
          (Z.min number (Z.of_nat (length priority) + Z.of_nat (length pool)))
  ∧ (∀ u, u ∈ priority → u ∈ ws)
  ∧ (∃ remainder,
        ws ≡ₚ priority ++ remainder
        ∧ remainder ⊆+ pool
        ∧ Z.of_nat (length remainder) =
            Z.min (Z.max 0 (number - Z.of_nat (length priority)))
                  (Z.of_nat (length pool)))
  ∧ NoDup ws
  ∧ Z.of_nat (length ws) ≤ Z.max number (Z.of_nat (length priority)).
Proof.
  intros Hpick priority pool.
  apply pick_reply in Hpick as [[? _]|[[= ->] _]]; [done|].
  pose proof (draw_winners_Permutation (cache st) (db st) g number rng) as Hperm.
  pose proof (random_part_length (cache st) (db st) g number rng) as Hlen.
  fold priority pool in Hperm, Hlen.
  assert (Hsize : Z.of_nat (length (draw_winners (cache st) (db st) g number rng))
                  = Z.of_nat (length priority)
                    + Z.of_nat (length (random_part (cache st) (db st) g number rng))).
  { rewrite Hperm, length_app. lia. }
  split; [lia|]. split.
  { intros u Hu. rewrite Hperm. apply elem_of_app. by left. }
  split.
  { exists (random_part (cache st) (db st) g number rng).
    split; [done|]. split; [apply random_part_submseteq|done]. }
  split; [apply draw_winners_NoDup|lia].
Qed.

Lemma C1_winner_list_size_witness :
  let st := spaceA_state in
  let g := guild_of [1; 2; 3; 4] in
  let ws := draw_winners (cache st) (db st) g 2 [1; 0; 1]%nat in
  Z.of_nat (length ws) =
    Z.max (Z.of_nat (length (priority_winners (cache st) (db st) g)))
          (Z.min 2 (Z.of_nat (length (priority_winners (cache st) (db st) g))
                    + Z.of_nat (length (eligible (cache st) (db st) g))))
  ∧ (∀ u, u ∈ priority_winners (cache st) (db st) g → u ∈ ws)
  ∧ (∃ remainder,
        ws ≡ₚ priority_winners (cache st) (db st) g ++ remainder
        ∧ remainder ⊆+ eligible (cache st) (db st) g
        ∧ Z.of_nat (length remainder) =
            Z.min (Z.max 0 (2 - Z.of_nat (length (priority_winners (cache st) (db st) g))))
                  (Z.of_nat (length (eligible (cache st) (db st) g))))
  ∧ NoDup ws
  ∧ Z.of_nat (length ws)
    ≤ Z.max 2 (Z.of_nat (length (priority_winners (cache st) (db st) g))).
Proof.
  intros st g ws.
  apply (C1_winner_list_size g [1; 0; 1]%nat 100 "SpaceA" 2 st ws
           (exec (pick g [1; 0; 1]%nat 100 "SpaceA" 2) st)).
  vm_compute. reflexivity.
Defined.

(** The claim as stated fails: with two eligible always-pick members
    and one winner requested, the draw succeeds with two winners, which
    is neither [min(N, |priority| + |pool|)] nor at most [N]. *)
Lemma C1_counterexample :
  ∃ ws st',
    pick (guild_of [1; 2]) [] 100 "SpaceA" 1 two_priority_state
      = (Return (Winners ws), st')
    ∧ length (priority_winners (cache two_priority_state)
                (db two_priority_state) (guild_of [1; 2])) = 2%nat
    ∧ length (eligible (cache two_priority_state)
                (db two_priority_state) (guild_of [1; 2])) = 0%nat
    ∧ Z.of_nat (length ws) ≠ Z.min 1 (2 + 0)
    ∧ ¬ (Z.of_nat (length ws) ≤ 1).
Proof.
  eexists _, _. split; [vm_compute; reflexivity|].
  repeat split; try (vm_compute; done).
Qed.

(** ** C2: a draw without winners changes nothing *)

(** C2.  For every draw whose computed winner list is empty, the
    command replies that no eligible users are available and the state
    after the call, the five cached containers and every table of the
    store, is the state before it. *)
Theorem C2_empty_draw_changes_nothing g rng now name number st :
  (select_winners (cache st) (db st) g number rng).1 = [] →
  pick g rng now name number st = (Return NoEligibleUsers, st).
Proof.
  intros Hempty. unfold pick. rewrite bind_unfold. simpl.
  by rewrite Hempty.
Qed.

Lemma C2_empty_draw_changes_nothing_witness :
  pick idle_guild [3; 1]%nat 100 "SpaceA" 5 idle_state
  = (Return NoEligibleUsers, idle_state).
Proof.
  apply C2_empty_draw_changes_nothing. vm_compute. reflexivity.
Defined.

(** ** C9: the blacklist excludes, always *)

(** C9.  For every draw and every blacklisted user, also one in the
    always-pick set: the user is neither a priority winner nor in the
    pool, and is in no winner list the draw computes or returns. *)
Theorem C9_blacklisted_never_wins g rng now name number st u :
  u ∈ DB.blacklist (db st) →
  (u ∉ priority_winners (cache st) (db st) g)
  ∧ (u ∉ eligible (cache st) (db st) g)
  ∧ (u ∉ draw_winners (cache st) (db st) g number rng)
  ∧ ∀ ws st', pick g rng now name number st = (Return (Winners ws), st') →
              u ∉ ws.
Proof.
  intros Hbl.
  assert (Hb : is_blacklisted u (db st) = true)
    by (by apply bool_decide_eq_true).
  assert (Hp : u ∉ priority_winners (cache st) (db st) g).
  { unfold priority_winners. rewrite list_elem_of_filter.
    intros [(_ & _ & Hno) _]. congruence. }
  assert (He : u ∉ eligible (cache st) (db st) g).
  { unfold eligible. rewrite list_elem_of_filter.
    intros [(_ & _ & _ & _ & Hno) _]. congruence. }
  assert (Hd : u ∉ draw_winners (cache st) (db st) g number rng).
  { rewrite draw_winners_Permutation, elem_of_app. intros [?|Hr]; [done|].
    apply He. eapply elem_of_submseteq; [exact Hr|].
    apply random_part_submseteq. }
  repeat split; try done.
  intros ws st' Hpick.
  apply pick_reply in Hpick as [[? _]|[[= ->] _]]; done.
Qed.

Lemma C9_blacklisted_never_wins_witness :
  let st := blacklisted_priority_state in
  let g := guild_of [1; 2] in
  (1 ∉ priority_winners (cache st) (db st) g)
  ∧ (1 ∉ eligible (cache st) (db st) g)
  ∧ (1 ∉ draw_winners (cache st) (db st) g 2 [])
  ∧ ∀ ws st', pick g [] 100 "SpaceA" 2 st = (Return (Winners ws), st') →
              1 ∉ ws.
Proof.
  intros st g.
  apply (C9_blacklisted_never_wins g [] 100 "SpaceA" 2 st 1).
  apply (bool_decide_unpack _). vm_compute. exact I.
Defined.

(** ** What [pick] computes *)

Lemma record_winner_run g name now w st :
  is_Some (raffles (cache st) !! name) →
  is_Some (DB.raffles (db st) !! name) →
  record_winner g name now w st
  = (if add_roles_ok g w then Return () else Raise DiscordError,
     record_winner_state name now st w).
Proof.
  intros [l Hl] Hrow.
  unfold record_winner.
  rewrite bind_unfold. simpl.
  rewrite bind_unfold, bind_unfold. simpl. rewrite Hl. simpl.
  rewrite bind_unfold. unfold db_add_winner.
  erewrite transaction_ok; last first.
  { simpl. unfold DB.insert_winner.
    instantiate (1 := insert_winner_db name w now (db st)).
    unfold insert_winner_db. destruct (DB.has_winner name w (db st)); [done|].
    by rewrite bool_decide_eq_true_2. }
  rewrite bind_unfold. unfold db_set_picked.
  erewrite transaction_ok; [|reflexivity].
  rewrite bind_unfold, db_update_stat_run.
  rewrite bind_unfold. simpl.
  unfold record_winner_state. rewrite Hl. simpl.
  by destruct (add_roles_ok g w).
Qed.

Lemma record_winner_state_open name now st w :
  is_Some (raffles (cache st) !! name) →
  is_Some (DB.raffles (db st) !! name) →
  is_Some (raffles (cache (record_winner_state name now st w)) !! name)
  ∧ is_Some (DB.raffles (db (record_winner_state name now st w)) !! name).
Proof.
  intros _ Hrow. split.
  - simpl. rewrite lookup_insert_eq. by eexists.
  - simpl. unfold update_stat_db, upsert_user_db, insert_winner_db.
    destruct (DB.has_winner name w (db st)); simpl;
      destruct (DB.stats (db st) !! w); simpl; done.
Qed.

Lemma for_each_record_winner g name now ws st :
  is_Some (raffles (cache st) !! name) →
  is_Some (DB.raffles (db st) !! name) →
  for_each ws (record_winner g name now) st
  = (if forallb (add_roles_ok g) ws then Return () else Raise DiscordError,
     record_winners name now (processed g ws) st).
Proof.
  revert st. induction ws as [|w ws IH]; intros st Hc Hd; [done|].
  simpl. rewrite bind_unfold, record_winner_run by done.
  destruct (add_roles_ok g w); [|done]. simpl.
  destruct (record_winner_state_open name now st w Hc Hd) as [Hc' Hd'].
  by rewrite IH.
Qed.

Lemma open_raffle_open name now st :
  is_Some (raffles (cache (open_raffle name now st)) !! name)
  ∧ is_Some (DB.raffles (db (open_raffle name now st)) !! name).
Proof.
  unfold open_raffle; simpl. split.
  - destruct (raffles (cache st) !! name) eqn:H; simpl.
    + rewrite H. by eexists.
    + rewrite lookup_insert_eq. by eexists.
  - destruct (DB.raffles (db st) !! name) eqn:H; simpl.
    + rewrite H. by eexists.
    + rewrite lookup_insert_eq. by eexists.
Qed.

Lemma pick_run g rng now name number st :
  pick g rng now name number st =
  match (select_winners (cache st) (db st) g number rng).1 with
  | [] => (Return NoEligibleUsers, st)
  | _ =>
      let ws := draw_winners (cache st) (db st) g number rng in
      if winner_role g || create_role_ok g
      then (if forallb (add_roles_ok g) ws
            then Return (Winners ws) else Raise DiscordError,
            record_winners name now (processed g ws) (open_raffle name now st))
      else (Raise DiscordError, open_raffle name now st)
  end.
Proof.
  unfold pick. rewrite bind_unfold. simpl.
  destruct (select_winners _ _ _ _ _).1 as [|w0 ws0]; [done|].
  set (ws := draw_winners _ _ _ _ _).
  rewrite bind_unfold. simpl.
  rewrite bind_unfold. unfold db_create_raffle.
  erewrite transaction_ok; [|reflexivity].
  change (mkState _ _) with (open_raffle name now st).
  rewrite bind_unfold.
  destruct (open_raffle_open name now st) as [Hc Hd].
  destruct (winner_role g); simpl.
  - rewrite bind_unfold, for_each_record_winner by done.
    by destruct (forallb _ _).
  - destruct (create_role_ok g); simpl; [|done].
    rewrite bind_unfold, for_each_record_winner by done.
    by destruct (forallb _ _).
Qed.

(** ** C8: a stat increment and the stored link *)

(** C8 (the code at the failing input).  The store holds user 1 with
    link "https://x.com/alice", as it does in [register] when line 320
    calls [db_update_stat].  The increment returns without a
    referential error, but it goes through [db_upsert_user(user_id)]
    with the default link and leaves the empty string in
    [users.x_link]; the same happens in every completed [register]. *)
Theorem C8_stat_increment_clears_link :
  DB.users (db linked_state) !! 1 = Some "https://x.com/alice"
  ∧ (db_update_stat 1 0 1 linked_state).1 = Return ()
  ∧ DB.users (db (exec (db_update_stat 1 0 1) linked_state)) !! 1 = Some ""
  ∧ DB.stats (db (exec (db_update_stat 1 0 1) linked_state)) !! 1
    = Some (mkStat 0 1)
  ∧ user_links (cache (run (Register 1 alice) init)) !! 1
    = Some "https://x.com/alice"
  ∧ DB.users (db (run (Register 1 alice) init)) !! 1 = Some "".
Proof. vm_compute. repeat split; reflexivity. Qed.

(** The part of C8 that holds: for every user id and every pair of
    deltas the increment returns, whatever the store holds, and it
    writes [users] and [stats] only. *)
Lemma db_update_stat_frame uid delta_reg delta_wins st :
  let st' := exec (db_update_stat uid delta_reg delta_wins) st in
  (db_update_stat uid delta_reg delta_wins st).1 = Return ()
  ∧ cache st' = cache st
  ∧ DB.always_pick (db st') = DB.always_pick (db st)
  ∧ DB.raffles (db st') = DB.raffles (db st)
  ∧ DB.raffle_winners (db st') = DB.raffle_winners (db st)
  ∧ DB.picks_state (db st') = DB.picks_state (db st)
  ∧ DB.archive_schedule (db st') = DB.archive_schedule (db st)
  ∧ DB.blacklist (db st') = DB.blacklist (db st)
  ∧ DB.users (db st') = <[uid := ""]> (DB.users (db st)).
Proof.
  unfold exec. rewrite db_update_stat_run. simpl.
  unfold update_stat_db, upsert_user_db.
  destruct (DB.stats (db st) !! uid); simpl; repeat split; reflexivity.
Qed.

(** ** C10: the registrations counter *)

(** C10 (the code at the failing input).  User 7 registers,
    unregisters and registers again.  The transaction of [unregister]
    deletes the [users] row first, while the [stats] row still
    references it: the statement is refused, the transaction is rolled
    back and the [stats] row stays, after the cache has already
    forgotten the user.  The second [register] is therefore accepted
    and adds one to a counter that is already 1. *)
Theorem C10_registrations_reach_two :
  (unregister 7 false None (run (Register 7 alice) init)).1
    = Raise (DbError DB.ForeignKeyViolation)
  ∧ db (run_all [Register 7 alice; Unregister 7 false None] init)
    = db (run (Register 7 alice) init)
  ∧ user_links (cache (run_all [Register 7 alice; Unregister 7 false None]
                         init)) !! 7 = None
  ∧ DB.stats (db (run_all [Register 7 alice; Unregister 7 false None;
                           Register 7 alice] init)) !! 7
    = Some (mkStat 2 0)
  ∧ user_stats (cache (run_all [Register 7 alice; Unregister 7 false None;
                                Register 7 alice] init)) !! 7
    = Some (mkStat 1 0).
Proof. vm_compute. repeat split; reflexivity. Qed.

(** ** One recorded winner *)

Lemma db_wins_update_stat d w u :
  db_wins (update_stat_db w 0 1 d) u
  = db_wins d u + (if bool_decide (u = w) then 1 else 0).
Proof.
  unfold db_wins, update_stat_db. simpl.
  case_bool_decide as Hu.
  - subst u. rewrite lookup_insert_eq. simpl.
    destruct (DB.stats d !! w); simpl; lia.
  - rewrite lookup_insert_ne by done.
    unfold upsert_user_db. destruct (DB.stats d !! w) eqn:Hw; simpl.
    + lia.
    + rewrite lookup_insert_ne by done. lia.
Qed.

Lemma cache_wins_bump c w u :
  cache_wins (bump_stat w 0 1 c) u
  = cache_wins c u + (if bool_decide (u = w) then 1 else 0).
Proof.
  unfold cache_wins, bump_stat. simpl.
  case_bool_decide as Hu.
  - subst u. rewrite lookup_insert_eq. simpl.
    destruct (user_stats c !! w); simpl; lia.
  - rewrite lookup_insert_ne by done. lia.
Qed.

Lemma has_winner_true name uid d :
  DB.has_winner name uid d = true ↔
  ∃ r, r ∈ DB.raffle_winners d ∧ DB.raffle_name r = name ∧ DB.user_id r = uid.
Proof.
  unfold DB.has_winner. rewrite bool_decide_eq_true, Exists_exists.
  reflexivity.
Qed.

Lemma has_winner_insert name w now d :
  DB.has_winner name w (insert_winner_db name w now d) = true.
Proof.
  unfold insert_winner_db.
  destruct (DB.has_winner name w d) eqn:H; [done|].
  apply has_winner_true. exists (DB.mkWinnerRow name w now). simpl.
  split; [|done]. apply elem_of_app. right. by apply list_elem_of_singleton.
Qed.

Lemma insert_winner_db_rows name w now d r :
  r ∈ DB.raffle_winners d → r ∈ DB.raffle_winners (insert_winner_db name w now d).
Proof.
  unfold insert_winner_db. destruct (DB.has_winner name w d); [done|].
  simpl. intros H. apply elem_of_app. by left.
Qed.

Lemma update_stat_db_rows uid dr dw d :
  DB.raffle_winners (update_stat_db uid dr dw d) = DB.raffle_winners d.
Proof.
  unfold update_stat_db, upsert_user_db.
  by destruct (DB.stats d !! uid).
Qed.

Lemma update_stat_db_picks uid dr dw d :
  DB.picks_state (update_stat_db uid dr dw d) = DB.picks_state d.
Proof.
  unfold update_stat_db, upsert_user_db.
  by destruct (DB.stats d !! uid).
Qed.

Lemma update_stat_db_raffles uid dr dw d :
  DB.raffles (update_stat_db uid dr dw d) = DB.raffles d.
Proof.
  unfold update_stat_db, upsert_user_db.
  by destruct (DB.stats d !! uid).
Qed.

Lemma insert_winner_db_picks name w now d :
  DB.picks_state (insert_winner_db name w now d) = DB.picks_state d.
Proof. unfold insert_winner_db. by destruct (DB.has_winner name w d). Qed.

Lemma insert_winner_db_raffles name w now d :
  DB.raffles (insert_winner_db name w now d) = DB.raffles d.
Proof. unfold insert_winner_db. by destruct (DB.has_winner name w d). Qed.

Lemma insert_winner_db_stats name w now d :
  DB.stats (insert_winner_db name w now d) = DB.stats d.
Proof. unfold insert_winner_db. by destruct (DB.has_winner name w d). Qed.

Lemma insert_winner_db_users name w now d :
  DB.users (insert_winner_db name w now d) = DB.users d.
Proof. unfold insert_winner_db. by destruct (DB.has_winner name w d). Qed.

Lemma record_winner_state_picks name now st w :
  DB.picks_state (db (record_winner_state name now st w))
  = {[w]} ∪ DB.picks_state (db st).
Proof.
  unfold record_winner_state. cbn [db].
  rewrite update_stat_db_picks. cbn. by rewrite insert_winner_db_picks.
Qed.

Lemma record_winner_state_rows name now st w :
  DB.raffle_winners (db (record_winner_state name now st w))
  = DB.raffle_winners (insert_winner_db name w now (db st)).
Proof. unfold record_winner_state. cbn [db]. by rewrite update_stat_db_rows. Qed.

Lemma has_winner_mono name uid d d' :
  (∀ r, r ∈ DB.raffle_winners d → r ∈ DB.raffle_winners d') →
  DB.has_winner name uid d = true → DB.has_winner name uid d' = true.
Proof.
  intros Hsub. rewrite !has_winner_true. intros (r & Hr & ?). eauto.
Qed.

(** What recording one winner leaves for that winner. *)
Lemma record_winner_state_commits name now st w :
  let st' := record_winner_state name now st w in
  w ∈ already_picked (cache st')
  ∧ w ∈ DB.picks_state (db st')
  ∧ DB.has_winner name w (db st') = true
  ∧ (∃ l, raffles (cache st') !! name = Some l ∧ w ∈ l).
Proof.
  cbv zeta. repeat split.
  - simpl. set_solver.
  - rewrite record_winner_state_picks. set_solver.
  - eapply has_winner_mono; [|apply (has_winner_insert name w now (db st))].
    intros r Hr. by rewrite record_winner_state_rows.
  - simpl. eexists. rewrite lookup_insert_eq. split; [done|].
    apply elem_of_app. right. by apply list_elem_of_singleton.
Qed.

(** What recording a further winner keeps. *)
Lemma record_winner_state_keeps name now st w u :
  let st' := record_winner_state name now st w in
  (u ∈ already_picked (cache st) → u ∈ already_picked (cache st'))
  ∧ (u ∈ DB.picks_state (db st) → u ∈ DB.picks_state (db st'))
  ∧ (DB.has_winner name u (db st) = true → DB.has_winner name u (db st') = true)
  ∧ ((∃ l, raffles (cache st) !! name = Some l ∧ u ∈ l) →
     ∃ l, raffles (cache st') !! name = Some l ∧ u ∈ l).
Proof.
  cbv zeta. repeat split.
  - simpl. set_solver.
  - rewrite record_winner_state_picks. set_solver.
  - apply has_winner_mono. intros r Hr.
    rewrite record_winner_state_rows. by apply insert_winner_db_rows.
  - simpl. intros (l & Hl & Hu). eexists. rewrite lookup_insert_eq.
    split; [done|]. rewrite Hl. simpl. apply elem_of_app. by left.
Qed.

Lemma record_winner_state_wins name now st w u :
  let st' := record_winner_state name now st w in
  db_wins (db st') u = db_wins (db st) u + (if bool_decide (u = w) then 1 else 0)
  ∧ cache_wins (cache st') u
    = cache_wins (cache st) u + (if bool_decide (u = w) then 1 else 0).
Proof.
  simpl. split.
  - rewrite db_wins_update_stat. f_equal.
    unfold db_wins, insert_winner_db. simpl.
    by destruct (DB.has_winner name w (db st)).
  - by rewrite cache_wins_bump.
Qed.

(** ** A list of recorded winners *)

Lemma record_winners_cons name now w ws st :
  record_winners name now (w :: ws) st
  = record_winners name now ws (record_winner_state name now st w).
Proof. reflexivity. Qed.

Lemma record_winners_keeps name now ws st u :
  let st' := record_winners name now ws st in
  (u ∈ already_picked (cache st) → u ∈ already_picked (cache st'))
  ∧ (u ∈ DB.picks_state (db st) → u ∈ DB.picks_state (db st'))
  ∧ (DB.has_winner name u (db st) = true → DB.has_winner name u (db st') = true)
  ∧ ((∃ l, raffles (cache st) !! name = Some l ∧ u ∈ l) →
     ∃ l, raffles (cache st') !! name = Some l ∧ u ∈ l).
Proof.
  revert st. induction ws as [|w ws IH]; intros st; [done|].
  rewrite record_winners_cons.
  destruct (IH (record_winner_state name now st w)) as (H1 & H2 & H3 & H4).
  destruct (record_winner_state_keeps name now st w u) as (K1 & K2 & K3 & K4).
  cbv zeta in *. repeat split; eauto.
Qed.

Lemma record_winners_commits name now ws st u :
  u ∈ ws →
  let st' := record_winners name now ws st in
  u ∈ already_picked (cache st')
  ∧ u ∈ DB.picks_state (db st')
  ∧ DB.has_winner name u (db st') = true
  ∧ (∃ l, raffles (cache st') !! name = Some l ∧ u ∈ l).
Proof.
  revert st. induction ws as [|w ws IH]; intros st Hu; [by apply elem_of_nil in Hu|].
  rewrite record_winners_cons.
  apply elem_of_cons in Hu as [->|Hu].
  - destruct (record_winner_state_commits name now st w) as (C1 & C2 & C3 & C4).
    destruct (record_winners_keeps name now ws
                (record_winner_state name now st w) w) as (K1 & K2 & K3 & K4).
    cbv zeta in *. repeat split; eauto.
  - by apply IH.
Qed.

Lemma record_winners_wins name now ws st u :
  NoDup ws →
  let st' := record_winners name now ws st in
  db_wins (db st') u
    = db_wins (db st) u + (if bool_decide (u ∈ ws) then 1 else 0)
  ∧ cache_wins (cache st') u
    = cache_wins (cache st) u + (if bool_decide (u ∈ ws) then 1 else 0).
Proof.
  revert st. induction ws as [|w ws IH]; intros st Hnd.
  - cbv zeta. unfold record_winners. cbn [foldl].
    case_bool_decide as H; [by apply elem_of_nil in H|lia].
  - apply NoDup_cons in Hnd as [Hw Hnd].
    rewrite record_winners_cons.
    destruct (IH (record_winner_state name now st w) Hnd) as [H1 H2].
    destruct (record_winner_state_wins name now st w u) as [W1 W2].
    cbv zeta in *. rewrite H1, H2, W1, W2.
    assert (Hcase : (if bool_decide (u = w) then 1 else 0)
                    + (if bool_decide (u ∈ ws) then 1 else 0)
                    = if bool_decide (u ∈ w :: ws) then 1 else 0).
    { clear IH H1 H2 W1 W2.
      rewrite (bool_decide_ext (u ∈ w :: ws) (u = w ∨ u ∈ ws))
        by apply elem_of_cons.
      repeat case_bool_decide; try lia; try tauto; subst; tauto. }
    lia.
Qed.

Lemma processed_prefix g ws : processed g ws `prefix_of` ws.
Proof.
  induction ws as [|w ws IH]; simpl; [done|].
  destruct (add_roles_ok g w).
  - by apply prefix_cons.
  - by exists ws.
Qed.

Lemma processed_NoDup g ws : NoDup ws → NoDup (processed g ws).
Proof.
  intros Hnd. destruct (processed_prefix g ws) as [k Hk].
  rewrite Hk in Hnd. by apply NoDup_app in Hnd as [? _].
Qed.

Lemma processed_all g ws :
  forallb (add_roles_ok g) ws = true → processed g ws = ws.
Proof.
  induction ws as [|w ws IH]; simpl; [done|].
  destruct (add_roles_ok g w); simpl; [|done]. intros H. by rewrite IH.
Qed.

Lemma open_raffle_wins name now st u :
  db_wins (db (open_raffle name now st)) u = db_wins (db st) u
  ∧ cache_wins (cache (open_raffle name now st)) u = cache_wins (cache st) u.
Proof.
  unfold open_raffle. simpl. split.
  - by destruct (DB.raffles (db st) !! name).
  - by destruct (raffles (cache st) !! name).
Qed.

(** ** C7: a failing role grant *)

(** C7 (as amended).  For every successful draw whose Winner role is
    there or can be created: the command stops at the first winner
    whose role grant raises; the state it leaves is the state of having
    recorded the winners up to and including that one, and for each of
    them the picked-state entry (cache and store), the entry in the
    cached winner list, the winner record and the increment by one of
    the stored and of the cached wins counter are in place.  Nothing
    that was written is taken back. *)
Theorem C7_role_grant_failure_keeps_committed g rng now name number st :
  (select_winners (cache st) (db st) g number rng).1 ≠ [] →
  winner_role g || create_role_ok g = true →
  let ws := draw_winners (cache st) (db st) g number rng in
  let st' := exec (pick g rng now name number) st in
  st' = record_winners name now (processed g ws) (open_raffle name now st)
  ∧ ∀ w, w ∈ processed g ws →
      w ∈ already_picked (cache st')
      ∧ w ∈ DB.picks_state (db st')
      ∧ DB.has_winner name w (db st') = true
      ∧ (∃ l, raffles (cache st') !! name = Some l ∧ w ∈ l)
      ∧ db_wins (db st') w = db_wins (db st) w + 1
      ∧ cache_wins (cache st') w = cache_wins (cache st) w + 1.
Proof.
  intros Hne Hrole ws st'.
  assert (Hst' : st' = record_winners name now (processed g ws)
                         (open_raffle name now st)).
  { unfold st', exec. rewrite pick_run.
    destruct (select_winners _ _ _ _ _).1; [done|].
    cbv zeta. rewrite Hrole. reflexivity. }
  split; [done|]. intros w Hw. rewrite Hst'.
  destruct (record_winners_commits name now (processed g ws)
              (open_raffle name now st) w Hw) as (C1 & C2 & C3 & C4).
  assert (Hnd : NoDup (processed g ws))
    by apply processed_NoDup, draw_winners_NoDup.
  destruct (record_winners_wins name now (processed g ws)
              (open_raffle name now st) w Hnd) as [W1 W2].
  destruct (open_raffle_wins name now st w) as [O1 O2].
  cbv zeta in *. rewrite bool_decide_eq_true_2 in W1, W2 by done.
  repeat split; try done; lia.
Qed.

Lemma C7_role_grant_failure_keeps_committed_witness :
  let st := two_priority_state in
  let g := refusing_guild in
  let ws := draw_winners (cache st) (db st) g 2 [] in
  let st' := exec (pick g [] 100 "SpaceA" 2) st in
  st' = record_winners "SpaceA" 100 (processed g ws) (open_raffle "SpaceA" 100 st)
  ∧ ∀ w, w ∈ processed g ws →
      w ∈ already_picked (cache st')
      ∧ w ∈ DB.picks_state (db st')
      ∧ DB.has_winner "SpaceA" w (db st') = true
      ∧ (∃ l, raffles (cache st') !! "SpaceA" = Some l ∧ w ∈ l)
      ∧ db_wins (db st') w = db_wins (db st) w + 1
      ∧ cache_wins (cache st') w = cache_wins (cache st) w + 1.
Proof.
  intros st g.
  apply (C7_role_grant_failure_keeps_committed g [] 100 "SpaceA" 2 st).
  - vm_compute. discriminate.
  - vm_compute. reflexivity.
Defined.

(** The claim as stated fails: users 1 and 2 both win, the role grant
    to the first winner in the list is refused, and the second winner
    is left without picked-state entry, winner record and win. *)
Lemma C7_counterexample :
  let st := two_priority_state in
  let g := refusing_guild in
  let st' := exec (pick g [] 100 "SpaceA" 2) st in
  draw_winners (cache st) (db st) g 2 [] = [2; 1]
  ∧ (pick g [] 100 "SpaceA" 2 st).1 = Raise DiscordError
  ∧ DB.has_winner "SpaceA" 2 (db st') = true
  ∧ DB.has_winner "SpaceA" 1 (db st') = false
  ∧ (1 ∉ already_picked (cache st'))
  ∧ (1 ∉ DB.picks_state (db st'))
  ∧ db_wins (db st') 1 = 0.
Proof.
  cbv zeta. repeat split; try (vm_compute; reflexivity).
  - apply (bool_decide_unpack _). vm_compute. exact I.
  - apply (bool_decide_unpack _). vm_compute. exact I.
Qed.

(** ** C3: the wins counter and the winner rows *)

Lemma run_all_cons cmd cmds st :
  run_all (cmd :: cmds) st = run_all cmds (run cmd st).
Proof. reflexivity. Qed.

Lemma win_rows_insert name w now d u :
  win_rows (insert_winner_db name w now d) u
  = win_rows d u
    + (if DB.has_winner name w d then 0
       else if bool_decide (u = w) then 1 else 0).
Proof.
  unfold win_rows, insert_winner_db.
  destruct (DB.has_winner name w d); [lia|]. simpl.
  rewrite filter_app, length_app.
  case_bool_decide as Hu.
  - rewrite filter_cons_True by done. simpl. lia.
  - rewrite filter_cons_False by (simpl; congruence). simpl. lia.
Qed.

Lemma record_winner_state_win_rows name now st w u :
  win_rows (db (record_winner_state name now st w)) u
  = win_rows (db st) u
    + (if DB.has_winner name w (db st) then 0
       else if bool_decide (u = w) then 1 else 0).
Proof.
  unfold win_rows at 1. rewrite record_winner_state_rows.
  apply win_rows_insert.
Qed.

Lemma record_winner_state_cover name now st w :
  wins_cover (db st) → wins_cover (db (record_winner_state name now st w)).
Proof.
  intros H u. specialize (H u).
  rewrite record_winner_state_win_rows.
  destruct (record_winner_state_wins name now st w u) as [-> _].
  destruct (DB.has_winner name w (db st)); case_bool_decide; lia.
Qed.

Lemma record_winner_state_match name now st w :
  DB.has_winner name w (db st) = false →
  wins_match (db st) → wins_match (db (record_winner_state name now st w)).
Proof.
  intros Hfresh H u. specialize (H u).
  rewrite record_winner_state_win_rows, Hfresh.
  destruct (record_winner_state_wins name now st w u) as [-> _]. lia.
Qed.

Lemma has_winner_other name now st w u :
  u ≠ w →
  DB.has_winner name u (db (record_winner_state name now st w))
  = DB.has_winner name u (db st).
Proof.
  intros Hne. unfold DB.has_winner at 1.
  rewrite record_winner_state_rows. unfold insert_winner_db.
  destruct (DB.has_winner name w (db st)); [done|]. simpl.
  unfold DB.has_winner. apply bool_decide_ext.
  rewrite Exists_app, Exists_cons, Exists_nil. simpl.
  split; [|by left]. intros [?|[[_ ?]|[]]]; [done|]. by destruct Hne.
Qed.

Lemma record_winners_cover name now ws st :
  wins_cover (db st) → wins_cover (db (record_winners name now ws st)).
Proof.
  revert st. induction ws as [|w ws IH]; intros st H; [done|].
  rewrite record_winners_cons. by apply IH, record_winner_state_cover.
Qed.

Lemma record_winners_match name now ws st :
  NoDup ws →
  Forall (λ w, DB.has_winner name w (db st) = false) ws →
  wins_match (db st) → wins_match (db (record_winners name now ws st)).
Proof.
  revert st. induction ws as [|w ws IH]; intros st Hnd Hfresh H; [done|].
  apply NoDup_cons in Hnd as [Hw Hnd].
  apply Forall_cons in Hfresh as [Hfw Hfresh].
  rewrite record_winners_cons. apply IH; [done| |].
  - apply Forall_forall. intros u Hu.
    rewrite has_winner_other by (intros ->; done).
    by apply (proj1 (Forall_forall _ _) Hfresh).
  - by apply record_winner_state_match.
Qed.

Lemma open_raffle_has_winner name now st name' u :
  DB.has_winner name' u (db (open_raffle name now st))
  = DB.has_winner name' u (db st).
Proof.
  unfold open_raffle. simpl. by destruct (DB.raffles (db st) !! name).
Qed.

Lemma open_raffle_cover name now st :
  wins_cover (db st) → wins_cover (db (open_raffle name now st)).
Proof.
  intros H u. specialize (H u). unfold open_raffle. simpl.
  by destruct (DB.raffles (db st) !! name).
Qed.

Lemma open_raffle_match name now st :
  wins_match (db st) → wins_match (db (open_raffle name now st)).
Proof.
  intros H u. specialize (H u). unfold open_raffle. simpl.
  by destruct (DB.raffles (db st) !! name).
Qed.

(** The state a draw leaves is the state before it, the state with the
    raffle opened, or that state with a prefix of the winners
    recorded. *)
Lemma pick_exec g rng now name number st :
  let ws := draw_winners (cache st) (db st) g number rng in
  exec (pick g rng now name number) st = st
  ∨ exec (pick g rng now name number) st = open_raffle name now st
  ∨ exec (pick g rng now name number) st
    = record_winners name now (processed g ws) (open_raffle name now st).
Proof.
  cbv zeta. unfold exec. rewrite pick_run.
  destruct (select_winners _ _ _ _ _).1; [by left|].
  cbv zeta. destruct (winner_role g || create_role_ok g); simpl; auto.
Qed.

Lemma Forall_prefix {A} (P : A → Prop) (l k : list A) :
  l `prefix_of` k → Forall P k → Forall P l.
Proof. intros [k' ->] H. by apply Forall_app in H as [? _]. Qed.

Lemma pick_cover g rng now name number st :
  wins_cover (db st) → wins_cover (db (exec (pick g rng now name number) st)).
Proof.
  intros H. destruct (pick_exec g rng now name number st) as [->|[->| ->]].
  - done.
  - by apply open_raffle_cover.
  - by apply record_winners_cover, open_raffle_cover.
Qed.

Lemma pick_match g rng now name number st :
  Forall (λ w, DB.has_winner name w (db st) = false)
         (draw_winners (cache st) (db st) g number rng) →
  wins_match (db st) → wins_match (db (exec (pick g rng now name number) st)).
Proof.
  intros Hfresh H.
  destruct (pick_exec g rng now name number st) as [->|[->| ->]].
  - done.
  - by apply open_raffle_match.
  - apply record_winners_match.
    + apply processed_NoDup, draw_winners_NoDup.
    + eapply Forall_prefix; [apply processed_prefix|].
      eapply Forall_impl; [exact Hfresh|]. intros w Hw. simpl in Hw.
      by rewrite open_raffle_has_winner.
    + by apply open_raffle_match.
Qed.

Lemma wins_match_cover d : wins_match d → wins_cover d.
Proof. intros H u. rewrite (H u). lia. Qed.

Lemma draws_and_resets_cover cmds st :
  Forall draw_or_reset cmds →
  wins_cover (db st) → wins_cover (db (run_all cmds st)).
Proof.
  revert st. induction cmds as [|cmd cmds IH]; intros st Hcmds H; [done|].
  apply Forall_cons in Hcmds as [Hcmd Hcmds].
  rewrite run_all_cons. apply IH; [done|].
  destruct cmd; simpl in Hcmd; try contradiction;
    [by apply pick_cover|exact H].
Qed.

Lemma draws_and_resets_match cmds st :
  Forall draw_or_reset cmds →
  fresh_draws cmds st →
  wins_match (db st) → wins_match (db (run_all cmds st)).
Proof.
  revert st. induction cmds as [|cmd cmds IH]; intros st Hcmds Hfresh H; [done|].
  apply Forall_cons in Hcmds as [Hcmd Hcmds].
  destruct Hfresh as [Hf Hfresh].
  rewrite run_all_cons. apply IH; [done|done|].
  destruct cmd; simpl in Hcmd; try contradiction;
    [by apply pick_match|exact H].
Qed.

(** C3 (as amended).  Start where every stored wins counter equals the
    number of winner rows of its user, and run any sequence of draws
    and pick resets.  Then no user has more winner rows than stored
    wins; and the two are equal for every user if no draw of the
    sequence selected a user who already had a winner row under the
    raffle name drawn.  (A user who wins the same raffle name again
    after a reset gets the increment, and no second row.) *)
Theorem C3_wins_and_winner_rows cmds st :
  Forall draw_or_reset cmds →
  wins_match (db st) →
  wins_cover (db (run_all cmds st))
  ∧ (fresh_draws cmds st → wins_match (db (run_all cmds st))).
Proof.
  intros Hcmds H. split.
  - by apply draws_and_resets_cover, wins_match_cover.
  - intros Hfresh. by apply draws_and_resets_match.
Qed.

Lemma wins_match_registered : wins_match (db registered_state).
Proof.
  intros u. unfold db_wins, win_rows.
  change (DB.raffle_winners (db registered_state)) with (@nil DB.WinnerRow).
  change (DB.stats (db registered_state))
    with (<[1 := mkStat 1 0]> (∅ : gmap Z Stat)).
  destruct (decide (u = 1)) as [->|Hu].
  - by rewrite lookup_insert_eq.
  - by rewrite lookup_insert_ne, lookup_empty.
Qed.

Lemma C3_wins_and_winner_rows_witness :
  let cmds := [Pick (guild_of [1]) [] 10 "SpaceA" 1; ResetPicks;
               Pick (guild_of [1]) [] 20 "SpaceB" 1] in
  wins_cover (db (run_all cmds registered_state))
  ∧ (fresh_draws cmds registered_state →
     wins_match (db (run_all cmds registered_state))).
Proof.
  intros cmds.
  apply (C3_wins_and_winner_rows cmds registered_state).
  - repeat constructor.
  - exact wins_match_registered.
Defined.

(** The claim as stated fails: user 1 wins "SpaceA", the picks are
    reset, user 1 wins "SpaceA" again.  The stored counter is 2, the
    user has one winner row. *)
Lemma C3_counterexample :
  let cmds := [Pick (guild_of [1]) [] 10 "SpaceA" 1; ResetPicks;
               Pick (guild_of [1]) [] 20 "SpaceA" 1] in
  Forall draw_or_reset cmds
  ∧ db_wins (db registered_state) 1 = win_rows (db registered_state) 1
  ∧ db_wins (db (run_all cmds registered_state)) 1 = 2
  ∧ win_rows (db (run_all cmds registered_state)) 1 = 1.
Proof.
  cbv zeta. split; [repeat constructor|].
  repeat split; vm_compute; reflexivity.
Qed.

(** ** What a tick computes *)

Lemma for_each_archive up due st :
  for_each due (λ name,
    db_archive_raffle name (up name) ;;
    modify_cache (λ c, set_raffles (delete name (raffles c)) c)) st
  = (if forallb up due then Return () else Raise (DbError DB.OperationalError),
     foldl archive_state st (archived_by up due)).
Proof.
  revert st. induction due as [|name due IH]; intros st; [done|].
  cbn [for_each forallb archived_by].
  rewrite bind_unfold, bind_unfold. unfold db_archive_raffle.
  destruct (up name); [|done].
  erewrite transaction_ok; [|reflexivity]. simpl.
  change (mkState _ _) with (archive_state st name).
  by rewrite IH.
Qed.

Lemma archive_watcher_run now up st :
  archive_watcher now up st
  = (if forallb up (db_get_due_archives now (db st))
     then Return () else Raise (DbError DB.OperationalError),
     foldl archive_state st
       (archived_by up (db_get_due_archives now (db st)))).
Proof.
  unfold archive_watcher. rewrite bind_unfold. simpl.
  destruct (db_get_due_archives now (db st)) as [|name due] eqn:Hdue; [done|].
  apply for_each_archive.
Qed.

Lemma archive_all_lookup l st name :
  let st' := foldl archive_state st l in
  DB.archive_schedule (db st') !! name
    = (if bool_decide (name ∈ l) then None
       else DB.archive_schedule (db st) !! name)
  ∧ raffles (cache st') !! name
    = (if bool_decide (name ∈ l) then None else raffles (cache st) !! name)
  ∧ DB.raffles (db st') !! name
    = (if bool_decide (name ∈ l) then archive_row <$> DB.raffles (db st) !! name
       else DB.raffles (db st) !! name).
Proof.
  revert st. induction l as [|x l IH]; intros st.
  - cbv zeta. cbn [foldl].
    rewrite bool_decide_eq_false_2 by apply not_elem_of_nil. done.
  - cbv zeta. cbn [foldl].
    destruct (IH (archive_state st x)) as (H1 & H2 & H3).
    cbv zeta in *. rewrite H1, H2, H3. clear H1 H2 H3 IH.
    simpl.
    rewrite (bool_decide_ext (name ∈ x :: l) (name = x ∨ name ∈ l))
      by apply elem_of_cons.
    destruct (decide (name = x)) as [->|Hne].
    + rewrite !lookup_delete_eq, lookup_alter_eq.
      rewrite (bool_decide_eq_true_2 (x = x ∨ x ∈ l)) by by left.
      rewrite <- option_fmap_compose.
      assert (archive_row ∘ archive_row = archive_row) as -> by done.
      by case_bool_decide.
    + rewrite !lookup_delete_ne, lookup_alter_ne by done.
      case_bool_decide as Hl.
      * by rewrite bool_decide_eq_true_2 by by right.
      * rewrite bool_decide_eq_false_2; [done|]. intros [?|?]; done.
Qed.

Lemma archive_all_frame l st :
  let st' := foldl archive_state st l in
  DB.users (db st') = DB.users (db st)
  ∧ DB.stats (db st') = DB.stats (db st)
  ∧ DB.raffle_winners (db st') = DB.raffle_winners (db st).
Proof.
  revert st. induction l as [|x l IH]; intros st; [done|].
  cbv zeta. cbn [foldl].
  destruct (IH (archive_state st x)) as (H1 & H2 & H3).
  cbv zeta in *. by rewrite H1, H2, H3.
Qed.

Lemma elem_of_due now d name :
  name ∈ db_get_due_archives now d
  ↔ ∃ t, DB.archive_schedule d !! name = Some t ∧ t ≤ now.
Proof.
  unfold db_get_due_archives. rewrite list_elem_of_fmap. split.
  - intros ([n t] & -> & H). apply list_elem_of_filter in H as [Ht H].
    apply elem_of_map_to_list in H. by exists t.
  - intros (t & Hname & Ht). exists (name, t). split; [done|].
    apply list_elem_of_filter. split; [done|].
    by apply elem_of_map_to_list.
Qed.

(** ** C6: a failure during a tick *)



(** ** C4: the cached raffles and the active raffles of the store *)

Lemma active_lookup (d : DB.t) name :
  is_Some (((λ _ : DB.RaffleRow, @nil Z)
              <$> filter (λ p, DB.archived p.2 = 0) (DB.raffles d)) !! name)
  ↔ ∃ row, DB.raffles d !! name = Some row ∧ DB.archived row = 0.
Proof.
  rewrite lookup_fmap, fmap_is_Some. unfold is_Some.
  split.
  - intros [row H]. apply map_lookup_filter_Some in H as [? ?]. by exists row.
  - intros (row & H & H0). exists row. by apply map_lookup_filter_Some.
Qed.

Lemma load_fold_keys d rows (m : gmap string (list Z)) :
  (∀ name, is_Some (m !! name)
           ↔ ∃ row, DB.raffles d !! name = Some row ∧ DB.archived row = 0) →
  ∀ name,
    is_Some (foldl (λ m r,
               match DB.raffles d !! DB.raffle_name r with
               | Some row =>
                   if bool_decide (DB.archived row = 0)
                   then <[DB.raffle_name r :=
                            default [] (m !! DB.raffle_name r) ++ [DB.user_id r]]> m
                   else m
               | None => m
               end) m rows !! name)
    ↔ ∃ row, DB.raffles d !! name = Some row ∧ DB.archived row = 0.
Proof.
  revert m. induction rows as [|r rows IH]; intros m Hm name; [apply Hm|].
  cbn [foldl]. apply IH. clear IH name. intros name.
  destruct (DB.raffles d !! DB.raffle_name r) as [row|] eqn:Hrow; [|apply Hm].
  case_bool_decide as Harch; [|apply Hm].
  destruct (decide (name = DB.raffle_name r)) as [->|Hne].
  - rewrite lookup_insert_eq. split; [|by eexists]. intros _. by exists row.
  - rewrite lookup_insert_ne by done. apply Hm.
Qed.

Lemma load_raffles_keys d name :
  is_Some (load_raffles d !! name)
  ↔ ∃ row, DB.raffles d !! name = Some row ∧ DB.archived row = 0.
Proof. apply load_fold_keys. intros n. apply active_lookup. Qed.


Lemma ready_mirrors st : cache_mirrors_active (run Ready st).
Proof. intros name. apply load_raffles_keys. Qed.












(** ** Commands as sequences of store steps *)

Section Stepwise.
Context (R : relation DB.t) `{!PreOrder R}.

Lemma stepwise_ret {A} (a : A) : stepwise R (mret a).
Proof. intros st. simpl. reflexivity. Qed.

Lemma stepwise_raise {A} e : stepwise R (@raise A e).
Proof. intros st. simpl. reflexivity. Qed.

Lemma stepwise_get_state : stepwise R get_state.
Proof. intros st. simpl. reflexivity. Qed.

Lemma stepwise_modify_cache f : stepwise R (modify_cache f).
Proof. intros st. simpl. reflexivity. Qed.

Lemma stepwise_bind {A B} (m : M A) (k : A → M B) :
  stepwise R m → (∀ a, stepwise R (k a)) → stepwise R (m ≫= k).
Proof.
  intros Hm Hk st. rewrite bind_unfold. specialize (Hm st).
  destruct (m st) as [[a|e] st1]; simpl in *; [|done].
  etrans; [exact Hm|apply Hk].
Qed.

Lemma stepwise_transaction f :
  (∀ d d', f d = DB.Ok d' → R d d') → stepwise R (transaction f).
Proof.
  intros Hf st. unfold transaction.
  destruct (f (db st)) as [d'|e] eqn:H; simpl; [by apply Hf|reflexivity].
Qed.

End Stepwise.

(** ** C5: winner rows stay *)

#[export] Instance sound_step_preorder : PreOrder sound_step.
Proof.
  split.
  - intros d Hd. split; [done|]. by intros r.
  - intros d1 d2 d3 H12 H23 Hd.
    destruct (H12 Hd) as [Hd2 K12]. destruct (H23 Hd2) as [Hd3 K23].
    split; [done|]. intros r Hr. by apply K23, K12.
Qed.

(** Soundness only looks at four tables. *)
Lemma sound_step_frame d d' :
  DB.users d' = DB.users d →
  DB.stats d' = DB.stats d →
  DB.raffles d' = DB.raffles d →
  DB.raffle_winners d' = DB.raffle_winners d →
  sound_step d d'.
Proof.
  intros Hu Hs Hr Hw [H1 H2 H3 H4]. split.
  - split; rewrite ?Hu, ?Hs, ?Hr, ?Hw; done.
  - intros r. by rewrite Hw.
Qed.

Lemma upsert_user_db_lookup uid link d x :
  (is_Some (DB.users (upsert_user_db uid link d) !! x)
   ↔ x = uid ∨ is_Some (DB.users d !! x))
  ∧ (is_Some (DB.stats (upsert_user_db uid link d) !! x)
     ↔ x = uid ∨ is_Some (DB.stats d !! x)).
Proof.
  unfold upsert_user_db.
  destruct (DB.stats d !! uid) as [s|] eqn:Hs; simpl;
    destruct (decide (x = uid)) as [->|Hne];
    rewrite ?lookup_insert_eq, ?lookup_insert_ne, ?Hs by done;
    split; split; (eauto || (intros [?|?]; eauto; done)).
Qed.

Lemma upsert_user_db_frame uid link d :
  DB.raffles (upsert_user_db uid link d) = DB.raffles d
  ∧ DB.raffle_winners (upsert_user_db uid link d) = DB.raffle_winners d.
Proof. unfold upsert_user_db. by destruct (DB.stats d !! uid). Qed.

Lemma sound_upsert_user uid link d : sound_step d (upsert_user_db uid link d).
Proof.
  intros [H1 H2 H3 H4].
  destruct (upsert_user_db_frame uid link d) as [Hr Hw].
  split; [split|]; rewrite ?Hr, ?Hw; try done.
  - intros x Hx.
    apply (proj1 (upsert_user_db_lookup uid link d x)).
    apply (proj2 (upsert_user_db_lookup uid link d x)) in Hx as [?|?]; auto.
  - intros r Hr'.
    apply (proj2 (upsert_user_db_lookup uid link d _)). auto.
  - intros r. by rewrite Hw.
Qed.

Lemma update_stat_db_lookup uid dr dw d x :
  (is_Some (DB.users (update_stat_db uid dr dw d) !! x)
   ↔ x = uid ∨ is_Some (DB.users d !! x))
  ∧ (is_Some (DB.stats (update_stat_db uid dr dw d) !! x)
     ↔ x = uid ∨ is_Some (DB.stats d !! x)).
Proof.
  unfold update_stat_db. cbn [DB.users DB.stats DB.set_stats].
  destruct (upsert_user_db_lookup uid "" d x) as [Hu Hs].
  split; [exact Hu|].
  destruct (decide (x = uid)) as [->|Hne].
  - rewrite lookup_insert_eq. split; [auto|by eexists].
  - by rewrite lookup_insert_ne.
Qed.

Lemma sound_update_stat uid dr dw d : sound_step d (update_stat_db uid dr dw d).
Proof.
  intros [H1 H2 H3 H4].
  pose proof (update_stat_db_raffles uid dr dw d) as Hr.
  pose proof (update_stat_db_rows uid dr dw d) as Hw.
  split; [split|]; rewrite ?Hr, ?Hw; try done.
  - intros x Hx.
    apply (proj1 (update_stat_db_lookup uid dr dw d x)).
    apply (proj2 (update_stat_db_lookup uid dr dw d x)) in Hx as [?|?]; auto.
  - intros r Hr'.
    apply (proj2 (update_stat_db_lookup uid dr dw d _)). auto.
  - intros r. by rewrite Hw.
Qed.

(** The transaction of [unregister] commits only for a user without a
    [stats] row, and such a user has no winner row. *)
Lemma sound_unregister target d d' :
  DB.and_then (DB.delete_user target d) (λ d,
  DB.and_then (DB.Ok (DB.set_stats (delete target (DB.stats d)) d)) (λ d,
  DB.and_then
    (DB.Ok (DB.set_always_pick (DB.always_pick d ∖ {[target]}) d)) (λ d,
  DB.and_then (DB.delete_winners_of target d) (λ d,
  DB.Ok (DB.set_picks_state (DB.picks_state d ∖ {[target]}) d)))))
  = DB.Ok d' →
  sound_step d d'.
Proof.
  unfold DB.delete_user. case_bool_decide as Hfk; [done|].
  simpl. intros [= <-] [H1 H2 H3 H4].
  assert (Hnone : DB.stats d !! target = None).
  { apply eq_None_not_Some. intros Hs. apply Hfk. split; [|done]. by apply H1. }
  assert (Hrows : ∀ r, r ∈ DB.raffle_winners d → DB.user_id r ≠ target).
  { intros r Hr Heq. specialize (H3 r Hr). rewrite Heq, Hnone in H3.
    by destruct H3. }
  assert (Hfilter : filter (λ r, DB.user_id r ≠ target) (DB.raffle_winners d)
                    = DB.raffle_winners d).
  { clear -Hrows. induction (DB.raffle_winners d) as [|r l IH]; [done|].
    rewrite filter_cons_True by (apply Hrows; by left).
    f_equal. apply IH. intros r' Hr'. apply Hrows. by right. }
  split; [split|]; simpl; rewrite ?Hfilter; try done.
  - intros x Hx. destruct (decide (x = target)) as [->|Hne].
    + rewrite lookup_delete_eq in Hx. by destruct Hx.
    + rewrite lookup_delete_ne in Hx by done.
      rewrite lookup_delete_ne by done. by apply H1.
  - intros r Hr.
    rewrite lookup_delete_ne by (intros Heq; by apply (Hrows r)).
    by apply H3.
  - by intros r.
Qed.

(** Whenever the user has a [stats] row, as every registered user and
    every winner has, [unregister] raises and the store is what it
    was. *)
Lemma unregister_raises author administrator member st :
  let target := default author member in
  is_Some (DB.users (db st) !! target) →
  is_Some (DB.stats (db st) !! target) →
  (is_Some member → administrator = true) →
  (unregister author administrator member st).1
    = Raise (DbError DB.ForeignKeyViolation)
  ∧ db (exec (unregister author administrator member) st) = db st.
Proof.
  intros target Hu Hs Hadm. unfold exec, unregister. fold target.
  rewrite bind_unfold. simpl.
  rewrite bool_decide_eq_false_2
    by (intros Hn; rewrite Hn in Hu; by destruct Hu).
  assert (bool_decide (is_Some member) && negb administrator = false) as ->.
  { case_bool_decide; [|done]. by rewrite Hadm. }
  rewrite bind_unfold. simpl. rewrite bind_unfold.
  erewrite transaction_err; [done|].
  simpl. unfold DB.delete_user.
  by rewrite bool_decide_eq_true_2.
Qed.

Lemma no_rows_without_stats d :
  store_ok d → (∀ uid, DB.stats d !! uid = None) → DB.raffle_winners d = [].
Proof.
  intros [_ _ H3 _] Hnone.
  destruct (DB.raffle_winners d) as [|r l]; [done|].
  specialize (H3 r (list_elem_of_here _ _)).
  rewrite Hnone in H3. by destruct H3.
Qed.

Lemma store_ok_empty : store_ok DB.empty.
Proof.
  split; simpl.
  - intros uid. rewrite lookup_empty. by intros [? ?].
  - intros r Hr. by apply elem_of_nil in Hr.
  - intros r Hr. by apply elem_of_nil in Hr.
  - apply NoDup_nil_2.
Qed.

Lemma sound_reset_db d d' :
  DB.and_then (DB.delete_all_users d) (λ d,
  DB.and_then (DB.delete_all_raffles d) (λ d, DB.Ok DB.empty)) = DB.Ok d' →
  sound_step d d'.
Proof.
  unfold DB.delete_all_users. case_bool_decide as Hfk; [done|].
  simpl. unfold DB.delete_all_raffles. simpl.
  case_bool_decide as Hfk2; [done|]. simpl. intros [= <-] Hd.
  assert (Hnone : ∀ uid, DB.stats d !! uid = None).
  { intros uid. apply eq_None_not_Some. intros Hs. apply Hfk.
    apply Exists_exists. exists uid. split.
    - by apply elem_of_elements, elem_of_dom.
    - by apply (stats_fk d Hd). }
  split; [apply store_ok_empty|].
  intros r. by rewrite (no_rows_without_stats d Hd Hnone).
Qed.

Lemma sound_reset_raffles d d' :
  DB.and_then (DB.delete_all_raffles d) (λ d,
    DB.Ok (DB.set_archive_schedule ∅
            (DB.set_picks_state ∅
              (DB.set_raffle_winners []
                (DB.set_stats ∅ d))))) = DB.Ok d' →
  sound_step d d'.
Proof.
  unfold DB.delete_all_raffles. case_bool_decide as Hfk; [done|].
  simpl. intros [= <-] Hd.
  assert (Hrows : DB.raffle_winners d = []).
  { destruct (DB.raffle_winners d) as [|r l] eqn:Hl; [done|].
    destruct Hfk. apply Exists_exists. exists r. split; [by left|].
    apply (winners_fk d Hd). rewrite Hl. by left. }
  split.
  - split; simpl.
    + intros uid. rewrite lookup_empty. by intros [? ?].
    + intros r Hr. by apply elem_of_nil in Hr.
    + intros r Hr. by apply elem_of_nil in Hr.
    + apply NoDup_nil_2.
  - intros r. by rewrite Hrows.
Qed.

Lemma sound_open_raffle name now st :
  sound_step (db st) (db (open_raffle name now st)).
Proof.
  unfold open_raffle. cbn [db].
  destruct (DB.raffles (db st) !! name) as [row|] eqn:Hrow; [reflexivity|].
  intros [H1 H2 H3 H4]. split; [split|]; simpl; try done.
  - intros r Hr. destruct (decide (DB.raffle_name r = name)) as [->|Hne].
    + rewrite lookup_insert_eq. by eexists.
    + rewrite lookup_insert_ne by done. by apply H2.
  - by intros r.
Qed.

Lemma sound_insert_winner name w now d :
  is_Some (DB.raffles d !! name) →
  is_Some (DB.stats d !! w) ∨ True →
  store_ok d →
  (∀ uid, is_Some (DB.stats d !! uid) → is_Some (DB.users d !! uid))
  ∧ (∀ r, r ∈ DB.raffle_winners (insert_winner_db name w now d) →
          is_Some (DB.raffles d !! DB.raffle_name r))
  ∧ (∀ r, r ∈ DB.raffle_winners (insert_winner_db name w now d) →
          DB.user_id r = w ∨ is_Some (DB.stats d !! DB.user_id r))
  ∧ NoDup (winner_key <$> DB.raffle_winners (insert_winner_db name w now d)).
Proof.
  intros Hopen _ [H1 H2 H3 H4]. unfold insert_winner_db.
  destruct (DB.has_winner name w d) eqn:Hhas.
  - repeat split; try done. intros r Hr. right. by apply H3.
  - simpl. repeat split; try done.
    + intros r Hr. apply elem_of_app in Hr as [Hr|Hr]; [by apply H2|].
      apply list_elem_of_singleton in Hr as ->. done.
    + intros r Hr. apply elem_of_app in Hr as [Hr|Hr]; [right; by apply H3|].
      apply list_elem_of_singleton in Hr as ->. by left.
    + rewrite fmap_app. apply NoDup_app. split; [done|]. split.
      * intros k Hk Hk'. simpl in Hk'.
        apply list_elem_of_singleton in Hk' as ->.
        apply list_elem_of_fmap in Hk as (r & Hkey & Hr).
        injection Hkey as Hn Hu.
        assert (DB.has_winner name w d = true); [|congruence].
        apply has_winner_true. by exists r.
      * simpl. apply NoDup_singleton.
Qed.

Lemma sound_record_winner_state name now st w :
  is_Some (DB.raffles (db st) !! name) →
  sound_step (db st) (db (record_winner_state name now st w)).
Proof.
  intros Hopen Hd.
  destruct (sound_insert_winner name w now (db st) Hopen (or_intror I) Hd)
    as (H1 & H2 & H3 & H4).
  split; [split|].
  - intros x Hx. unfold record_winner_state in *. cbn [db] in *.
    apply (proj1 (update_stat_db_lookup _ _ _ _ _)).
    apply (proj2 (update_stat_db_lookup _ _ _ _ _)) in Hx as [?|Hx]; [by left|].
    right. cbn in *. rewrite insert_winner_db_users.
    rewrite insert_winner_db_stats in Hx. by apply H1.
  - intros r. rewrite record_winner_state_rows. intros Hr.
    unfold record_winner_state. cbn [db].
    rewrite update_stat_db_raffles. cbn.
    rewrite insert_winner_db_raffles. by apply H2.
  - intros r. rewrite record_winner_state_rows. intros Hr.
    unfold record_winner_state. cbn [db].
    apply (proj2 (update_stat_db_lookup _ _ _ _ _)).
    destruct (H3 r Hr) as [?|Hs]; [by left|right].
    cbn. by rewrite insert_winner_db_stats.
  - by rewrite record_winner_state_rows.
  - intros r Hr. rewrite record_winner_state_rows.
    by apply insert_winner_db_rows.
Qed.

Lemma record_winner_state_db_raffles name now st w :
  DB.raffles (db (record_winner_state name now st w)) = DB.raffles (db st).
Proof.
  unfold record_winner_state. cbn [db].
  rewrite update_stat_db_raffles. cbn. by rewrite insert_winner_db_raffles.
Qed.

Lemma sound_record_winners name now ws st :
  is_Some (DB.raffles (db st) !! name) →
  sound_step (db st) (db (record_winners name now ws st)).
Proof.
  revert st. induction ws as [|w ws IH]; intros st Hopen; [reflexivity|].
  rewrite record_winners_cons.
  etrans; [by apply sound_record_winner_state|].
  apply IH. by rewrite record_winner_state_db_raffles.
Qed.

Lemma sound_archive_state st x : sound_step (db st) (db (archive_state st x)).
Proof.
  intros [H1 H2 H3 H4]. split; [split|]; simpl; try done.
  - intros r Hr. specialize (H2 r Hr).
    destruct (decide (DB.raffle_name r = x)) as [<-|Hne].
    + rewrite lookup_alter_eq. by apply fmap_is_Some.
    + by rewrite lookup_alter_ne.
  - by intros r.
Qed.

Lemma sound_archive_all l st :
  sound_step (db st) (db (foldl archive_state st l)).
Proof.
  revert st. induction l as [|x l IH]; intros st; [reflexivity|].
  cbn [foldl]. etrans; [apply sound_archive_state|apply IH].
Qed.

Lemma sound_pick g rng now name number st :
  sound_step (db st) (db (exec (pick g rng now name number) st)).
Proof.
  destruct (pick_exec g rng now name number st) as [->|[->| ->]].
  - reflexivity.
  - apply sound_open_raffle.
  - etrans; [apply sound_open_raffle|].
    apply sound_record_winners, open_raffle_open.
Qed.

Lemma sound_tick now up st :
  sound_step (db st) (db (exec (archive_watcher now up) st)).
Proof.
  unfold exec. rewrite archive_watcher_run. apply sound_archive_all.
Qed.

Lemma stepwise_frame (f : DB.t → DB.t) :
  (∀ d, DB.users (f d) = DB.users d) →
  (∀ d, DB.stats (f d) = DB.stats d) →
  (∀ d, DB.raffles (f d) = DB.raffles d) →
  (∀ d, DB.raffle_winners (f d) = DB.raffle_winners d) →
  stepwise sound_step (transaction (λ d, DB.Ok (f d))).
Proof.
  intros Hu Hs Hr Hw. apply (stepwise_transaction sound_step).
  intros d d' [= <-]. by apply sound_step_frame.
Qed.

Lemma stepwise_db_upsert_user uid link :
  stepwise sound_step (db_upsert_user uid link).
Proof. intros st. rewrite db_upsert_user_run. apply sound_upsert_user. Qed.

Lemma stepwise_db_update_stat uid dr dw :
  stepwise sound_step (db_update_stat uid dr dw).
Proof. intros st. rewrite db_update_stat_run. apply sound_update_stat. Qed.

Ltac stepwise_split :=
  repeat first
    [ apply stepwise_db_upsert_user
    | apply stepwise_db_update_stat
    | apply (stepwise_ret sound_step)
    | apply (stepwise_raise sound_step)
    | apply (stepwise_get_state sound_step)
    | apply (stepwise_modify_cache sound_step)
    | apply (stepwise_bind sound_step); [|intros ?]
    | match goal with
      | |- stepwise _ (match ?x with _ => _ end) => destruct x
      end ].

Lemma stepwise_register author link :
  stepwise sound_step (register author link).
Proof.
  unfold register. stepwise_split.
Qed.

Lemma stepwise_unregister author administrator member :
  stepwise sound_step (unregister author administrator member).
Proof.
  unfold unregister. stepwise_split.
  apply (stepwise_transaction sound_step). apply sound_unregister.
Qed.

Ltac stepwise_frame_txn :=
  apply stepwise_frame; intros ?; reflexivity.

Ltac stepwise_seq :=
  repeat first
    [ apply (stepwise_ret sound_step)
    | apply (stepwise_modify_cache sound_step)
    | apply (stepwise_bind sound_step); [|intros ?] ].

Lemma stepwise_blacklist m : stepwise sound_step (blacklist m).
Proof. unfold blacklist. stepwise_seq. stepwise_frame_txn. Qed.

Lemma stepwise_unblacklist m : stepwise sound_step (unblacklist m).
Proof. unfold unblacklist. stepwise_seq. stepwise_frame_txn. Qed.

Lemma stepwise_reset_picks : stepwise sound_step reset_picks.
Proof.
  unfold reset_picks. stepwise_seq. unfold db_reset_picks. stepwise_frame_txn.
Qed.

Lemma stepwise_profile u : stepwise sound_step (profile u).
Proof. unfold profile. stepwise_seq. Qed.

Lemma stepwise_always_add m : stepwise sound_step (always_add m).
Proof.
  unfold always_add. stepwise_seq. unfold db_set_always. stepwise_frame_txn.
Qed.

Lemma stepwise_always_remove m : stepwise sound_step (always_remove m).
Proof.
  unfold always_remove. stepwise_seq. unfold db_set_always. stepwise_frame_txn.
Qed.

Lemma stepwise_handle_export name now :
  stepwise sound_step (handle_export name now).
Proof.
  unfold handle_export.
  apply (stepwise_bind sound_step); [apply (stepwise_get_state sound_step)|].
  intros st. cbv zeta.
  match goal with |- stepwise _ (if ?b then _ else _) => destruct b end.
  - stepwise_seq. unfold db_schedule_archive. stepwise_frame_txn.
  - apply (stepwise_ret sound_step).
Qed.

Lemma stepwise_reset_db : stepwise sound_step reset_db.
Proof.
  unfold reset_db. stepwise_split.
  apply (stepwise_transaction sound_step). apply sound_reset_db.
Qed.

Lemma stepwise_reset_raffles : stepwise sound_step reset_raffles.
Proof.
  unfold reset_raffles. stepwise_split.
  apply (stepwise_transaction sound_step). apply sound_reset_raffles.
Qed.

(** Every command takes a sound store to a sound store and keeps every
    winner row. *)
Lemma run_sound cmd st : sound_step (db st) (db (run cmd st)).
Proof.
  destruct cmd; cbn [run].
  - apply stepwise_register.
  - apply stepwise_unregister.
  - apply stepwise_blacklist.
  - apply stepwise_unblacklist.
  - apply sound_pick.
  - apply stepwise_reset_picks.
  - apply stepwise_profile.
  - apply stepwise_always_add.
  - apply stepwise_always_remove.
  - apply stepwise_handle_export.
  - apply sound_tick.
  - reflexivity.
  - reflexivity.
  - apply stepwise_reset_db.
  - apply stepwise_reset_raffles.
Qed.

Lemma run_all_sound cmds st : sound_step (db st) (db (run_all cmds st)).
Proof.
  revert st. induction cmds as [|cmd cmds IH]; intros st; [reflexivity|].
  rewrite run_all_cons. etrans; [apply run_sound|apply IH].
Qed.

Lemma reachable_store_ok cmds : store_ok (db (run_all cmds init)).
Proof. by apply (run_all_sound cmds init), store_ok_empty. Qed.

Lemma winner_key_inj d r r' :
  store_ok d →
  r ∈ DB.raffle_winners d → r' ∈ DB.raffle_winners d →
  DB.raffle_name r' = DB.raffle_name r → DB.user_id r' = DB.user_id r →
  r' = r.
Proof.
  intros [_ _ _ Hpk] Hr Hr' Hn Hu.
  assert (Hkey : winner_key r' = winner_key r)
    by (unfold winner_key; congruence).
  clear Hn Hu. induction (DB.raffle_winners d) as [|x l IH].
  - by apply elem_of_nil in Hr.
  - rewrite fmap_cons in Hpk. apply NoDup_cons in Hpk as [Hx Hpk].
    apply elem_of_cons in Hr as [->|Hr];
      apply elem_of_cons in Hr' as [->|Hr']; try done.
    + destruct Hx. rewrite <- Hkey. by apply list_elem_of_fmap_2.
    + destruct Hx. rewrite Hkey. by apply list_elem_of_fmap_2.
    + by apply IH.
Qed.

(** C5.  Take any winner record present after any run of commands from
    a new deployment.  After any further run of commands (register,
    unregister, blacklist, draws, resets, exports, scheduler ticks,
    restarts, reset_db, reset_raffles) the record is still there with
    the same raffle, user and time, and it is the only record of its
    (raffle, user) pair.  The DELETE statements that would remove it,
    in [unregister], [reset_db] and [reset_raffles], sit in
    transactions that the foreign keys make fail whenever a winner
    record exists for the user, resp. at all. *)
Theorem C5_winner_rows_stay cmds cmds' r :
  r ∈ DB.raffle_winners (db (run_all cmds init)) →
  r ∈ DB.raffle_winners (db (run_all cmds' (run_all cmds init)))
  ∧ ∀ r', r' ∈ DB.raffle_winners (db (run_all cmds' (run_all cmds init))) →
          DB.raffle_name r' = DB.raffle_name r →
          DB.user_id r' = DB.user_id r →
          r' = r.
Proof.
  intros Hr.
  destruct (run_all_sound cmds' (run_all cmds init) (reachable_store_ok cmds))
    as [Hok Hkeep].
  split; [by apply Hkeep|].
  intros r' Hr' Hn Hu. eapply winner_key_inj; eauto.
Qed.

Lemma C5_winner_rows_stay_witness :
  let r := DB.mkWinnerRow "SpaceA" 1 10 in
  let later := [Unregister 1 false None; ResetDb; ResetRaffles; ResetPicks;
                Pick (guild_of [1]) [] 20 "SpaceA" 1] in
  r ∈ DB.raffle_winners (db (run_all later (run_all one_win init)))
  ∧ ∀ r', r' ∈ DB.raffle_winners (db (run_all later (run_all one_win init))) →
          DB.raffle_name r' = DB.raffle_name r →
          DB.user_id r' = DB.user_id r →
          r' = r.
Proof.
  intros r later.
  apply (C5_winner_rows_stay one_win later r).
  assert (H : DB.raffle_winners (db (run_all one_win init)) = [r])
    by (vm_compute; reflexivity).
  rewrite H. apply list_elem_of_here.
Defined.


(** * Further properties of the code *)

(** ** Who can win (pick, lines 500-523) *)

Lemma elem_of_priority_winners c d g u :
  u ∈ priority_winners c d g
  ↔ u ∈ always_pick c ∧ is_Some (get_member g u)
    ∧ (u ∉ already_picked c) ∧ (u ∉ DB.blacklist d).
Proof.
  unfold priority_winners, is_blacklisted.
  rewrite list_elem_of_filter, elem_of_elements, bool_decide_eq_false.
  tauto.
Qed.

Lemma elem_of_eligible c d g u :
  u ∈ eligible c d g
  ↔ is_Some (user_links c !! u) ∧ get_member g u = Some online
    ∧ (u ∉ already_picked c) ∧ (u ∉ always_pick c) ∧ (u ∉ DB.blacklist d).
Proof.
  unfold eligible, is_blacklisted.
  rewrite list_elem_of_filter, bool_decide_eq_false.
  assert (u ∈ (map_to_list (user_links c)).*1 ↔ is_Some (user_links c !! u))
    as ->.
  { rewrite list_elem_of_fmap. split.
    - intros ([k v] & -> & H). apply elem_of_map_to_list in H. by exists v.
    - intros [v H]. exists (u, v). split; [done|].
      by apply elem_of_map_to_list. }
  split.
  - intros [(_ & ? & ? & ? & ?) ?]. done.
  - intros (? & Hon & ? & ? & ?).
    repeat split; try done; rewrite Hon; by eexists.
Qed.

Lemma draw_winner_cases c d g number rng w :
  w ∈ draw_winners c d g number rng →
  is_Some (get_member g w)
  ∧ (w ∉ already_picked c)
  ∧ (w ∉ DB.blacklist d)
  ∧ (w ∈ always_pick c
     ∨ (w ∉ always_pick c) ∧ is_Some (user_links c !! w)
       ∧ get_member g w = Some online).
Proof.
  rewrite draw_winners_Permutation, elem_of_app. intros [Hw|Hw].
  - apply elem_of_priority_winners in Hw as (? & ? & ? & ?). auto.
  - apply (λ H, elem_of_submseteq _ _ _ H
                  (random_part_submseteq c d g number rng)) in Hw.
    apply elem_of_eligible in Hw as (? & Hon & ? & ? & ?).
    split; [rewrite Hon; by eexists|].
    split; [done|]. split; [done|]. by right.
Qed.

(** Every winner of a draw is a guild member who is not yet picked and
    not blacklisted, and is either in the always-pick set or a
    registered user who is online and not in the always-pick set. *)
Theorem winners_are_eligible c d g number rng w :
  w ∈ draw_winners c d g number rng →
  is_Some (get_member g w)
  ∧ (w ∉ already_picked c)
  ∧ (w ∉ DB.blacklist d)
  ∧ (w ∈ always_pick c
     ∨ (w ∉ always_pick c) ∧ is_Some (user_links c !! w)
       ∧ get_member g w = Some online).
Proof. apply draw_winner_cases. Qed.

Lemma winners_are_eligible_witness :
  let st := spaceA_state in
  let g := guild_of [1; 2; 3; 4] in
  is_Some (get_member g 1)
  ∧ (1 ∉ already_picked (cache st))
  ∧ (1 ∉ DB.blacklist (db st))
  ∧ (1 ∈ always_pick (cache st)
     ∨ (1 ∉ always_pick (cache st)) ∧ is_Some (user_links (cache st) !! 1)
       ∧ get_member g 1 = Some online).
Proof.
  intros st g.
  apply (winners_are_eligible (cache st) (db st) g 2 [1; 0; 1]%nat 1).
  apply (bool_decide_unpack _). vm_compute. exact I.
Defined.

(** A draw that asks for at least as many winners as there are
    eligible users returns all of them: every priority winner and the
    whole pool. *)
Theorem oversubscribed_draw_takes_all c d g number rng :
  Z.of_nat (length (priority_winners c d g))
    + Z.of_nat (length (eligible c d g)) ≤ number →
  draw_winners c d g number rng ≡ₚ priority_winners c d g ++ eligible c d g.
Proof.
  intros Hn. rewrite draw_winners_Permutation.
  apply Permutation_app_head.
  apply submseteq_length_Permutation; [apply random_part_submseteq|].
  pose proof (random_part_length c d g number rng). lia.
Qed.

Lemma oversubscribed_draw_takes_all_witness :
  let st := spaceA_state in
  let g := guild_of [1; 2; 3; 4] in
  draw_winners (cache st) (db st) g 5 [2; 0]%nat
  ≡ₚ priority_winners (cache st) (db st) g ++ eligible (cache st) (db st) g.
Proof.
  intros st g.
  apply (oversubscribed_draw_takes_all (cache st) (db st) g 5 [2; 0]%nat).
  vm_compute. discriminate.
Defined.

(** A draw for a count that is zero or negative selects the priority
    winners and nobody else; with no priority winner it finds no
    winner and changes nothing. *)
Theorem nonpositive_draw g rng now name number st :
  number ≤ 0 →
  draw_winners (cache st) (db st) g number rng
    ≡ₚ priority_winners (cache st) (db st) g
  ∧ (priority_winners (cache st) (db st) g = [] →
     pick g rng now name number st = (Return NoEligibleUsers, st)).
Proof.
  intros Hn.
  assert (Hr : random_part (cache st) (db st) g number rng = []).
  { pose proof (random_part_length (cache st) (db st) g number rng) as H.
    destruct (random_part _ _ _ _ _); [done|]. simpl in H. lia. }
  split.
  - by rewrite draw_winners_Permutation, Hr, app_nil_r.
  - intros Hp. rewrite pick_run, select_winners_split, Hp, Hr. done.
Qed.

Lemma nonpositive_draw_witness :
  let st := spaceA_state in
  let g := guild_of [1; 2; 3; 4] in
  draw_winners (cache st) (db st) g 0 []
    ≡ₚ priority_winners (cache st) (db st) g
  ∧ (priority_winners (cache st) (db st) g = [] →
     pick g [] 100 "SpaceA" 0 st = (Return NoEligibleUsers, st)).
Proof.
  intros st g. apply (nonpositive_draw g [] 100 "SpaceA" 0 st). lia.
Defined.

(** ** What a completed draw leaves (pick, lines 529-560) *)

Lemma pick_returns g rng now name number st ws st' :
  pick g rng now name number st = (Return (Winners ws), st') →
  ws = draw_winners (cache st) (db st) g number rng
  ∧ st' = record_winners name now ws (open_raffle name now st).
Proof.
  rewrite pick_run.
  destruct (select_winners _ _ _ _ _).1; [done|]. cbv zeta.
  destruct (winner_role g || create_role_ok g); [|done].
  destruct (forallb _ _) eqn:Hall; [|done].
  rewrite (processed_all _ _ Hall). by intros [= <- <-].
Qed.

Lemma picked_cons (w : Z) (ws : list Z) (s : gset Z) :
  list_to_set ws ∪ ({[w]} ∪ s) = list_to_set (w :: ws) ∪ s.
Proof.
  apply set_eq. intros x.
  rewrite !elem_of_union, !elem_of_list_to_set, elem_of_cons, elem_of_singleton.
  tauto.
Qed.

Lemma record_winners_cache name now ws st l :
  raffles (cache st) !! name = Some l →
  raffles (cache (record_winners name now ws st)) !! name = Some (l ++ ws)
  ∧ (∀ n, n ≠ name →
       raffles (cache (record_winners name now ws st)) !! n
       = raffles (cache st) !! n)
  ∧ already_picked (cache (record_winners name now ws st))
    = list_to_set ws ∪ already_picked (cache st)
  ∧ DB.picks_state (db (record_winners name now ws st))
    = list_to_set ws ∪ DB.picks_state (db st)
  ∧ user_links (cache (record_winners name now ws st)) = user_links (cache st)
  ∧ always_pick (cache (record_winners name now ws st)) = always_pick (cache st).
Proof.
  revert st l. induction ws as [|w ws IH]; intros st l Hl.
  - unfold record_winners. cbn [foldl]. rewrite app_nil_r.
    rewrite list_to_set_nil, !(left_id_L ∅ (∪)). done.
  - rewrite record_winners_cons.
    assert (Hl' : raffles (cache (record_winner_state name now st w)) !! name
                  = Some (l ++ [w])).
    { simpl. by rewrite lookup_insert_eq, Hl. }
    destruct (IH _ _ Hl') as (H1 & H2 & H3 & H4 & H5 & H6).
    rewrite H1, H3, H4, H5, H6, record_winner_state_picks.
    rewrite <- app_assoc.
    split; [done|]. split.
    { intros n Hn. rewrite H2 by done. simpl. by rewrite lookup_insert_ne. }
    split; [apply picked_cons|]. split; [apply picked_cons|]. done.
Qed.

(** When a draw returns its winner list [ws]: the cached winner list
    of the raffle is what it was (empty for a new raffle) followed by
    [ws] in the announced order, the other raffles are untouched, [ws]
    is added to the picked state in the cache and in the store, every
    winner has a winner row, and each stored and cached wins counter
    went up by one for a winner and not at all for anyone else. *)
Theorem completed_draw_effects g rng now name number st ws st' :
  pick g rng now name number st = (Return (Winners ws), st') →
  raffles (cache st') !! name
    = Some (default [] (raffles (cache st) !! name) ++ ws)
  ∧ (∀ n, n ≠ name → raffles (cache st') !! n = raffles (cache st) !! n)
  ∧ already_picked (cache st') = list_to_set ws ∪ already_picked (cache st)
  ∧ DB.picks_state (db st') = list_to_set ws ∪ DB.picks_state (db st)
  ∧ (∀ w, w ∈ ws → DB.has_winner name w (db st') = true)
  ∧ (∀ u, db_wins (db st') u
          = db_wins (db st) u + (if bool_decide (u ∈ ws) then 1 else 0))
  ∧ (∀ u, cache_wins (cache st') u
          = cache_wins (cache st) u + (if bool_decide (u ∈ ws) then 1 else 0)).
Proof.
  intros Hpick. apply pick_returns in Hpick as [Hws ->].
  assert (Hnd : NoDup ws) by (rewrite Hws; apply draw_winners_NoDup).
  assert (Hl : raffles (cache (open_raffle name now st)) !! name
               = Some (default [] (raffles (cache st) !! name))).
  { unfold open_raffle. simpl.
    destruct (raffles (cache st) !! name) eqn:H; simpl; [done|].
    by rewrite lookup_insert_eq. }
  destruct (record_winners_cache name now ws _ _ Hl)
    as (H1 & H2 & H3 & H4 & _ & _).
  split; [done|]. split.
  { intros n Hn. rewrite H2 by done. unfold open_raffle. simpl.
    destruct (raffles (cache st) !! name); simpl; [done|].
    by rewrite lookup_insert_ne. }
  split.
  { rewrite H3. unfold open_raffle. simpl.
    by destruct (raffles (cache st) !! name). }
  split.
  { rewrite H4. unfold open_raffle. simpl.
    by destruct (DB.raffles (db st) !! name). }
  split.
  { intros w Hw.
    by destruct (record_winners_commits name now ws
                   (open_raffle name now st) w Hw) as (_ & _ & ? & _). }
  split; intros u;
    destruct (record_winners_wins name now ws (open_raffle name now st) u Hnd)
      as [W1 W2];
    destruct (open_raffle_wins name now st u) as [O1 O2];
    cbv zeta in *; lia.
Qed.

Lemma completed_draw_effects_witness :
  let st := spaceA_state in
  let g := guild_of [1; 2; 3; 4] in
  let ws := draw_winners (cache st) (db st) g 2 [1; 0; 1]%nat in
  let st' := exec (pick g [1; 0; 1]%nat 100 "SpaceA" 2) st in
  raffles (cache st') !! "SpaceA"
    = Some (default [] (raffles (cache st) !! "SpaceA") ++ ws)
  ∧ (∀ n, n ≠ "SpaceA" → raffles (cache st') !! n = raffles (cache st) !! n)
  ∧ already_picked (cache st') = list_to_set ws ∪ already_picked (cache st)
  ∧ DB.picks_state (db st') = list_to_set ws ∪ DB.picks_state (db st)
  ∧ (∀ w, w ∈ ws → DB.has_winner "SpaceA" w (db st') = true)
  ∧ (∀ u, db_wins (db st') u
          = db_wins (db st) u + (if bool_decide (u ∈ ws) then 1 else 0))
  ∧ (∀ u, cache_wins (cache st') u
          = cache_wins (cache st) u + (if bool_decide (u ∈ ws) then 1 else 0)).
Proof.
  intros st g ws st'.
  apply (completed_draw_effects g [1; 0; 1]%nat 100 "SpaceA" 2 st ws st').
  vm_compute. reflexivity.
Defined.

(** A user who has won is not selected again, by any later draw under
    any name, as long as the picked state is not reset: the winners of
    a completed draw are in no winner list computed from the state it
    leaves. *)
Theorem winners_are_not_drawn_again g rng now name number st ws st' :
  pick g rng now name number st = (Return (Winners ws), st') →
  ∀ g' number' rng' w,
    w ∈ ws → w ∉ draw_winners (cache st') (db st') g' number' rng'.
Proof.
  intros Hpick g' number' rng' w Hw Hagain.
  apply draw_winner_cases in Hagain as (_ & Hnot & _).
  apply Hnot.
  apply pick_returns in Hpick as [_ ->].
  by destruct (record_winners_commits name now ws
                 (open_raffle name now st) w Hw) as (? & _).
Qed.

Lemma winners_are_not_drawn_again_witness :
  let st := spaceA_state in
  let g := guild_of [1; 2; 3; 4] in
  let st' := exec (pick g [1; 0; 1]%nat 100 "SpaceA" 2) st in
  1 ∉ draw_winners (cache st') (db st') g 3 [2]%nat.
Proof.
  intros st g st'.
  apply (winners_are_not_drawn_again g [1; 0; 1]%nat 100 "SpaceA" 2 st
           [1; 4] st').
  - vm_compute. reflexivity.
  - by left.
Defined.

(** ** [reset_picks] (lines 570-582) *)

(** After a reset of the picks nobody is excluded for having won:
    the priority winners of the next draw are the always-pick members
    of the guild that are not blacklisted, the pool is the registered
    online members outside the always-pick set that are not
    blacklisted; the picked state is empty in the cache and in the
    store and nothing else has changed. *)
Theorem reset_picks_restores_eligibility st g u :
  let st' := exec reset_picks st in
  (u ∈ priority_winners (cache st') (db st') g
   ↔ u ∈ always_pick (cache st) ∧ is_Some (get_member g u)
     ∧ (u ∉ DB.blacklist (db st)))
  ∧ (u ∈ eligible (cache st') (db st') g
     ↔ is_Some (user_links (cache st) !! u) ∧ get_member g u = Some online
       ∧ (u ∉ always_pick (cache st)) ∧ (u ∉ DB.blacklist (db st)))
  ∧ st' = mkState (set_already_picked ∅ (cache st))
                  (DB.set_picks_state ∅ (db st))
  ∧ reset_picks st = (Return Done, st').
Proof.
  cbv zeta.
  assert (Hst : exec reset_picks st
                = mkState (set_already_picked ∅ (cache st))
                          (DB.set_picks_state ∅ (db st))) by done.
  rewrite Hst. split; [|split; [|done]].
  - rewrite elem_of_priority_winners. simpl.
    pose proof (not_elem_of_empty (C:=gset Z) u). tauto.
  - rewrite elem_of_eligible. simpl.
    pose proof (not_elem_of_empty (C:=gset Z) u). tauto.
Qed.

(** ** [register] (lines 299-321) *)

Lemma register_run author link st :
  register author link st =
  match link with
  | None => (Return Usage, st)
  | Some l =>
      if bool_decide (l = "") then (Return Usage, st)
      else if negb (link_ok l) then (Return InvalidLink, st)
      else match user_links (cache st) !! author with
           | Some l' => (Return (AlreadyRegistered l'), st)
           | None =>
               if is_blacklisted author (db st)
               then (Return YouAreBlacklisted, st)
               else (Return Registered, registered author l st)
           end
  end.
Proof.
  unfold register. destruct link as [l|]; [|done].
  case_bool_decide; [done|]. destruct (link_ok l); [|done]. simpl.
  rewrite bind_unfold. simpl.
  destruct (user_links (cache st) !! author); [done|].
  destruct (is_blacklisted author (db st)); [done|].
  rewrite bind_unfold. simpl.
  rewrite bind_unfold, db_upsert_user_run.
  rewrite bind_unfold. simpl.
  rewrite bind_unfold, db_update_stat_run. reflexivity.
Qed.

(** [register] never raises, and a registration that is turned down
    (no link, malformed link, author already registered, author
    blacklisted) leaves the cache and the store exactly as they
    were. *)
Theorem register_rejection_changes_nothing author link st :
  ∃ r, (register author link st).1 = Return r
       ∧ (r ≠ Registered → exec (register author link) st = st).
Proof.
  unfold exec. pose proof (register_run author link st) as Hrun.
  destruct (register author link st) as [o st1]. simpl.
  destruct link as [l|]; [|injection Hrun as -> ->; by eexists].
  case_bool_decide; [injection Hrun as -> ->; by eexists|].
  destruct (link_ok l); simpl in Hrun;
    [|injection Hrun as -> ->; by eexists].
  destruct (user_links (cache st) !! author);
    [injection Hrun as -> ->; by eexists|].
  destruct (is_blacklisted author (db st));
    injection Hrun as -> ->; by eexists.
Qed.

(** A registration is accepted exactly for a well-formed link from an
    author who is neither in [user_links] nor blacklisted.  It stores
    the link in the cache, adds one to the cached and to the stored
    registrations counter and leaves the wins counters alone; the
    author then has a [users] row and a [stats] row.  Registering again
    is turned down with the stored link and changes nothing. *)
Theorem register_accepted author link st st' :
  register author (Some link) st = (Return Registered, st') →
  link_ok link = true
  ∧ user_links (cache st) !! author = None
  ∧ (author ∉ DB.blacklist (db st))
  ∧ user_links (cache st') !! author = Some link
  ∧ user_stats (cache st') !! author
    = Some (mkStat (default 0 (registrations <$> user_stats (cache st) !! author) + 1)
                   (cache_wins (cache st) author))
  ∧ DB.stats (db st') !! author
    = Some (mkStat (default 0 (registrations <$> DB.stats (db st) !! author) + 1)
                   (db_wins (db st) author))
  ∧ is_Some (DB.users (db st') !! author)
  ∧ ∀ link', register author (Some link') st' = (Return Usage, st')
             ∨ register author (Some link') st' = (Return InvalidLink, st')
             ∨ register author (Some link') st'
               = (Return (AlreadyRegistered link), st').
Proof.
  rewrite register_run.
  case_bool_decide; [done|].
  destruct (link_ok link) eqn:Hok; [|done]. cbn [negb].
  destruct (user_links (cache st) !! author) eqn:Hl; [done|].
  destruct (is_blacklisted author (db st)) eqn:Hb; [done|].
  intros [= <-].
  apply bool_decide_eq_false in Hb.
  assert (Hlink : user_links (cache (registered author link st)) !! author
                  = Some link).
  { simpl. by rewrite lookup_insert_eq. }
  split; [done|]. split; [done|]. split; [done|]. split; [done|].
  split.
  { simpl. rewrite lookup_insert_eq. unfold cache_wins.
    destruct (user_stats (cache st) !! author) as [[r w]|]; simpl;
      do 2 f_equal; lia. }
  split.
  { unfold registered. cbn [db]. unfold update_stat_db.
    cbn [DB.stats DB.set_stats]. rewrite lookup_insert_eq.
    unfold upsert_user_db, db_wins.
    destruct (DB.stats (db st) !! author) as [[r w]|] eqn:Hs; simpl.
    - rewrite Hs. simpl. do 2 f_equal; lia.
    - rewrite lookup_insert_eq. simpl. done. }
  split.
  { apply (proj2 (proj1 (update_stat_db_lookup _ _ _ _ _))). by left. }
  intros link'. rewrite register_run.
  case_bool_decide; [by left|].
  destruct (link_ok link'); cbn [negb]; [|by right; left].
  rewrite Hlink. by right; right.
Qed.

Lemma register_accepted_witness :
  let st' := exec (register 5 alice) idle_state in
  link_ok "https://x.com/alice" = true
  ∧ user_links (cache idle_state) !! 5 = None
  ∧ (5 ∉ DB.blacklist (db idle_state))
  ∧ user_links (cache st') !! 5 = Some "https://x.com/alice"
  ∧ user_stats (cache st') !! 5
    = Some (mkStat (default 0 (registrations <$> user_stats (cache idle_state) !! 5) + 1)
                   (cache_wins (cache idle_state) 5))
  ∧ DB.stats (db st') !! 5
    = Some (mkStat (default 0 (registrations <$> DB.stats (db idle_state) !! 5) + 1)
                   (db_wins (db idle_state) 5))
  ∧ is_Some (DB.users (db st') !! 5)
  ∧ ∀ link', register 5 (Some link') st' = (Return Usage, st')
             ∨ register 5 (Some link') st' = (Return InvalidLink, st')
             ∨ register 5 (Some link') st'
               = (Return (AlreadyRegistered "https://x.com/alice"), st').
Proof.
  intros st'.
  apply (register_accepted 5 "https://x.com/alice" idle_state st').
  vm_compute. reflexivity.
Defined.

(** ** Links and usernames (lines 305-306, 557-558, 726-727) *)

Lemma strip_prefix_Some p s r : strip_prefix p s = Some r ↔ s = p +:+ r.
Proof.
  revert s. induction p as [|a p IH]; intros s; simpl.
  - split; [by intros [= ->]|by intros ->].
  - destruct s as [|b s]; [done|].
    case_bool_decide as Hab.
    + subst b. rewrite IH. split; [by intros ->|by intros [= ->]].
    + split; [done|]. intros [= ? _]. by destruct Hab.
Qed.

Lemma word_char_not_slash c : is_word_char c = true → c ≠ "/"%char.
Proof. intros H ->. vm_compute in H. discriminate. Qed.

Lemma username_ok_split u : username_ok u = true → split_slash u = [u].
Proof.
  induction u as [|c rest IH]; [done|].
  cbn [username_ok]. intros H. apply andb_true_iff in H as [Hc Hrest].
  apply word_char_not_slash in Hc.
  cbn [split_slash]. rewrite bool_decide_eq_false_2 by done.
  destruct rest as [|c' rest']; [done|].
  assert (Hcases : String c' rest' = String "010"%char EmptyString
                   ∨ username_ok (String c' rest') = true).
  { destruct rest' as [|c'' rest''];
      destruct c' as [[] [] [] [] [] [] [] []];
      first [left; reflexivity | right; exact Hrest]. }
  destruct Hcases as [->|Hok]; [reflexivity|].
  by rewrite IH.
Qed.

Lemma split_slash_nonempty s : split_slash s ≠ [].
Proof.
  destruct s as [|c rest]; [done|]. cbn [split_slash].
  case_bool_decide; [done|]. by destruct (split_slash rest).
Qed.

Lemma last_split_after_slash p u :
  split_slash u = [u] →
  List.last (split_slash (p +:+ String "/"%char u)) EmptyString = u
  ∧ (2 ≤ length (split_slash (p +:+ String "/"%char u)))%nat.
Proof.
  intros Hu. induction p as [|c p [IHlast IHlen]].
  - simpl. rewrite Hu. simpl. split; [done|lia].
  - change (String c p +:+ String "/"%char u)
      with (String c (p +:+ String "/"%char u)).
    cbn [split_slash].
    destruct (split_slash (p +:+ String "/"%char u)) as [|h [|h' t]] eqn:Hs;
      simpl in IHlen; try lia.
    case_bool_decide; simpl in *; split; try done; lia.
Qed.

Lemma link_ok_iff link :
  link_ok link = true
  ↔ ∃ u, (link = "https://x.com/" +:+ u ∨ link = "https://twitter.com/" +:+ u)
         ∧ username_ok u = true.
Proof.
  unfold link_ok. split.
  - destruct (strip_prefix "https://x.com/" link) as [u|] eqn:H1.
    + intros Hu. exists u. split; [left; by apply strip_prefix_Some|done].
    + destruct (strip_prefix "https://twitter.com/" link) as [u|] eqn:H2;
        [|done].
      intros Hu. exists u. split; [right; by apply strip_prefix_Some|done].
  - intros (u & [->| ->] & Hu).
    + assert (strip_prefix "https://x.com/" ("https://x.com/" +:+ u) = Some u)
        as -> by (by apply strip_prefix_Some).
      done.
    + assert (strip_prefix "https://x.com/" ("https://twitter.com/" +:+ u)
              = None) as -> by reflexivity.
      assert (strip_prefix "https://twitter.com/"
                ("https://twitter.com/" +:+ u) = Some u)
        as -> by (by apply strip_prefix_Some).
      done.
Qed.


(** The X username shown for an accepted link, the last piece of the
    link between slashes, is exactly the part after the host that the
    validation accepted. *)
Theorem x_username_of_accepted_link link :
  link_ok link = true →
  ∃ u, (link = "https://x.com/" +:+ u ∨ link = "https://twitter.com/" +:+ u)
       ∧ x_username link = u.
Proof.
  intros Hok. apply link_ok_iff in Hok as (u & Hshape & Hu).
  exists u. split; [done|].
  apply username_ok_split in Hu.
  unfold x_username.
  destruct Hshape as [-> | ->].
  - rewrite bool_decide_eq_false_2 by done.
    apply (last_split_after_slash "https://x.com" u Hu).
  - rewrite bool_decide_eq_false_2 by done.
    apply (last_split_after_slash "https://twitter.com" u Hu).
Qed.

Lemma x_username_of_accepted_link_witness :
  ∃ u, ("https://twitter.com/a_B9" = "https://x.com/" +:+ u
        ∨ "https://twitter.com/a_B9" = "https://twitter.com/" +:+ u)
       ∧ x_username "https://twitter.com/a_B9" = u.
Proof.
  apply (x_username_of_accepted_link "https://twitter.com/a_B9").
  vm_compute. reflexivity.
Defined.

(** ** [db_update_stat] (lines 173-191) *)


(** ** [unregister] (lines 323-362) *)

Lemma unregister_run author administrator member st :
  let target := default author member in
  unregister author administrator member st =
  if bool_decide (DB.users (db st) !! target = None)
  then (Return NotRegistered, st)
  else if bool_decide (is_Some member) && negb administrator
  then (Return NoPermission, st)
  else
    let c := mkCache (delete target (user_links (cache st)))
                     (delete target (user_stats (cache st)))
                     (raffles (cache st))
                     (already_picked (cache st) ∖ {[target]})
                     (always_pick (cache st) ∖ {[target]}) in
    match DB.delete_user target (db st) with
    | DB.Ok d =>
        (Return Unregistered,
         mkState c
           (DB.set_picks_state (DB.picks_state d ∖ {[target]})
              (DB.set_raffle_winners
                 (filter (λ r, DB.user_id r ≠ target) (DB.raffle_winners d))
                 (DB.set_always_pick (DB.always_pick d ∖ {[target]})
                    (DB.set_stats (delete target (DB.stats d)) d)))))
    | DB.Err e => (Raise (DbError e), mkState c (db st))
    end.
Proof.
  intros target. unfold unregister. fold target.
  rewrite bind_unfold. cbn [get_state].
  case_bool_decide; [done|].
  destruct (bool_decide (is_Some member) && negb administrator); [done|].
  rewrite bind_unfold. cbn [modify_cache]. rewrite bind_unfold.
  unfold transaction. cbn [db cache].
  destruct (DB.delete_user target (db st)); reflexivity.
Qed.

(** [unregister] is turned down, with the state unchanged, for a
    target without a [users] row and for a non-administrator who names
    a member. *)
Theorem unregister_turned_down author administrator member st :
  let target := default author member in
  (DB.users (db st) !! target = None →
   unregister author administrator member st = (Return NotRegistered, st))
  ∧ (is_Some (DB.users (db st) !! target) → is_Some member →
     administrator = false →
     unregister author administrator member st = (Return NoPermission, st)).
Proof.
  intros target. rewrite unregister_run. fold target. split.
  - intros H. by rewrite bool_decide_eq_true_2.
  - intros Hu Hm ->.
    rewrite bool_decide_eq_false_2
      by (intros Hn; rewrite Hn in Hu; by destruct Hu).
    by rewrite bool_decide_eq_true_2.
Qed.



Lemma unregister_turned_down_witness :
  unregister 3 false None init = (Return NotRegistered, init)
  ∧ unregister 2 false (Some 3) idle_state = (Return NoPermission, idle_state).
Proof.
  split.
  - apply (proj1 (unregister_turned_down 3 false None init)). reflexivity.
  - apply (proj2 (unregister_turned_down 2 false (Some 3) idle_state)).
    + vm_compute. by eexists.
    + by eexists.
    + reflexivity.
Defined.

(** ** The archive scheduler with the store in reach (lines 268-276) *)

Lemma archived_by_up due : archived_by (λ _, true) due = due.
Proof. induction due as [|n due IH]; simpl; by rewrite ?IH. Qed.

Lemma due_nil now d :
  (∀ name t, DB.archive_schedule d !! name = Some t → ¬ t ≤ now) →
  db_get_due_archives now d = [].
Proof.
  intros H. destruct (db_get_due_archives now d) as [|name l] eqn:Hd; [done|].
  assert (Hin : name ∈ db_get_due_archives now d) by (rewrite Hd; by left).
  apply elem_of_due in Hin as (t & Ht & Hle). by destruct (H name t Ht).
Qed.

(** A tick during which the store can be reached returns, archives
    every due raffle that exists, removes every due entry from the
    schedule and every due name from the cache; entries that are not
    yet due stay.  Nothing is due any more at that time, and a second
    tick at the same time changes nothing. *)
Theorem tick_archives_all_due now st :
  let up := λ _ : string, true in
  let due := db_get_due_archives now (db st) in
  let st' := exec (archive_watcher now up) st in
  (archive_watcher now up st).1 = Return ()
  ∧ (∀ name, name ∈ due →
       DB.raffles (db st') !! name = archive_row <$> DB.raffles (db st) !! name
       ∧ DB.archive_schedule (db st') !! name = None
       ∧ raffles (cache st') !! name = None)
  ∧ (∀ name, name ∉ due →
       DB.raffles (db st') !! name = DB.raffles (db st) !! name
       ∧ DB.archive_schedule (db st') !! name
         = DB.archive_schedule (db st) !! name
       ∧ raffles (cache st') !! name = raffles (cache st) !! name)
  ∧ db_get_due_archives now (db st') = []
  ∧ exec (archive_watcher now up) st' = st'.
Proof.
  intros up due st'.
  assert (Hst' : st' = foldl archive_state st due).
  { unfold st', exec. rewrite archive_watcher_run. fold due.
    unfold up. by rewrite archived_by_up. }
  assert (Hlook := λ name, archive_all_lookup due st name).
  cbv zeta in Hlook. rewrite <- Hst' in Hlook.
  assert (Hdue' : db_get_due_archives now (db st') = []).
  { apply due_nil. intros name t Ht Hle.
    destruct (Hlook name) as (H1 & _ & _). rewrite H1 in Ht.
    case_bool_decide as Hin; [done|].
    apply Hin, elem_of_due. by exists t. }
  split.
  { rewrite archive_watcher_run. fold due. unfold up. simpl.
    assert (forallb (λ _ : string, true) due = true) as ->; [|done].
    clear. by induction due. }
  split.
  { intros name Hin. destruct (Hlook name) as (H1 & H2 & H3).
    rewrite H1, H2, H3. by rewrite bool_decide_eq_true_2. }
  split.
  { intros name Hin. destruct (Hlook name) as (H1 & H2 & H3).
    rewrite H1, H2, H3. by rewrite bool_decide_eq_false_2. }
  split; [done|].
  unfold exec. rewrite archive_watcher_run, Hdue'. done.
Qed.

(** ** Scheduling an archive (lines 808-810, 834-868) *)

Lemma handle_export_run name now st :
  handle_export name now st =
  if match raffles (cache st) !! name with
     | Some l => bool_decide (l ≠ [])
     | None =>
         bool_decide (Exists (λ r, DB.raffle_name r = name)
                             (DB.raffle_winners (db st)))
     end
  then (Return Done,
        mkState (cache st)
          (DB.set_archive_schedule
             (<[name := now + 300]> (DB.archive_schedule (db st))) (db st)))
  else (Return NoWinnersFound, st).
Proof.
  unfold handle_export. rewrite bind_unfold. cbn [get_state].
  match goal with |- (if ?b then _ else _) _ = _ => destruct b end;
    [|reflexivity].
  rewrite bind_unfold. reflexivity.
Qed.

(** An export of a raffle with cached winners schedules its archival
    five minutes later; exporting again replaces the entry, so that the
    raffle has one entry, with the time of the last export, and is due
    from five minutes after the last export on and not before.  The
    entries of other raffles are not touched. *)
Theorem export_reschedules name t1 t2 st l :
  raffles (cache st) !! name = Some l → l ≠ [] →
  let st' := exec (handle_export name t2) (exec (handle_export name t1) st) in
  DB.archive_schedule (db st') !! name = Some (t2 + 300)
  ∧ (∀ n, n ≠ name →
       DB.archive_schedule (db st') !! n = DB.archive_schedule (db st) !! n)
  ∧ (∀ now, name ∈ db_get_due_archives now (db st') ↔ t2 + 300 ≤ now)
  ∧ cache st' = cache st.
Proof.
  intros Hl Hne st'.
  assert (Hst' : st' = mkState (cache st)
            (DB.set_archive_schedule
               (<[name := t2 + 300]>
                  (<[name := t1 + 300]> (DB.archive_schedule (db st))))
               (db st))).
  { unfold st', exec. rewrite (handle_export_run name t1 st), Hl.
    rewrite (bool_decide_eq_true_2 (l ≠ [])) by done. cbn [snd].
    rewrite handle_export_run. cbn [cache db]. rewrite Hl.
    rewrite (bool_decide_eq_true_2 (l ≠ [])) by done. reflexivity. }
  rewrite Hst'. cbn [db cache DB.archive_schedule DB.set_archive_schedule].
  split; [by rewrite lookup_insert_eq|]. split.
  { intros n Hn. by rewrite !lookup_insert_ne. }
  split; [|done].
  intros now. rewrite elem_of_due.
  cbn [DB.archive_schedule DB.set_archive_schedule].
  rewrite lookup_insert_eq. split.
  - by intros (t & [= <-] & ?).
  - intros ?. by exists (t2 + 300).
Qed.

Lemma export_reschedules_witness :
  let st := exec (pick (guild_of [1; 2; 3; 4]) [1; 0; 1]%nat 100 "SpaceA" 2)
                 spaceA_state in
  let st' := exec (handle_export "SpaceA" 510)
                  (exec (handle_export "SpaceA" 500) st) in
  DB.archive_schedule (db st') !! "SpaceA" = Some (510 + 300)
  ∧ (∀ n, n ≠ "SpaceA" →
       DB.archive_schedule (db st') !! n = DB.archive_schedule (db st) !! n)
  ∧ (∀ now, "SpaceA" ∈ db_get_due_archives now (db st') ↔ 510 + 300 ≤ now)
  ∧ cache st' = cache st.
Proof.
  intros st.
  apply (export_reschedules "SpaceA" 500 510 st [1; 4]).
  - vm_compute. reflexivity.
  - discriminate.
Defined.

(** ** Raffle rows are kept and stay archived *)

#[export] Instance raffles_progress_preorder : PreOrder raffles_progress.
Proof.
  split.
  - intros d name row H. by exists row.
  - intros d1 d2 d3 H12 H23 name row H.
    destruct (H12 name row H) as (row2 & H2 & Hc2 & Ha2).
    destruct (H23 name row2 H2) as (row3 & H3 & Hc3 & Ha3).
    exists row3. split; [done|]. split; [congruence|auto].
Qed.

Lemma raffles_progress_frame d d' :
  DB.raffles d' = DB.raffles d → raffles_progress d d'.
Proof. intros H name row Hrow. exists row. by rewrite H. Qed.

Section RafflesFrame.
Context (R : relation DB.t) `{!PreOrder R}.
Hypothesis frame : ∀ d d', DB.raffles d' = DB.raffles d → R d d'.

Lemma frame_txn (f : DB.t → DB.t) :
  (∀ d, DB.raffles (f d) = DB.raffles d) →
  stepwise R (transaction (λ d, DB.Ok (f d))).
Proof.
  intros Hf. apply (stepwise_transaction R).
  intros d d' [= <-]. by apply frame.
Qed.

Lemma frame_db_upsert_user uid link : stepwise R (db_upsert_user uid link).
Proof.
  intros st. rewrite db_upsert_user_run. apply frame.
  apply upsert_user_db_frame.
Qed.

Lemma frame_db_update_stat uid dr dw : stepwise R (db_update_stat uid dr dw).
Proof.
  intros st. rewrite db_update_stat_run. apply frame.
  apply update_stat_db_raffles.
Qed.

Lemma frame_register author link : stepwise R (register author link).
Proof.
  intros st. rewrite register_run.
  destruct link as [l|]; [|reflexivity].
  case_bool_decide; [reflexivity|].
  destruct (link_ok l); cbn [negb]; [|reflexivity].
  destruct (user_links (cache st) !! author); [reflexivity|].
  destruct (is_blacklisted author (db st)); [reflexivity|].
  apply frame. unfold registered. cbn [snd db].
  rewrite update_stat_db_raffles. apply upsert_user_db_frame.
Qed.

Lemma frame_unregister author administrator member :
  stepwise R (unregister author administrator member).
Proof.
  intros st. rewrite unregister_run. cbv zeta.
  case_bool_decide; [reflexivity|].
  destruct (_ && _); [reflexivity|].
  unfold DB.delete_user. case_bool_decide; [reflexivity|].
  apply frame. reflexivity.
Qed.

Lemma frame_simple :
  (∀ m, stepwise R (blacklist m))
  ∧ (∀ m, stepwise R (unblacklist m))
  ∧ stepwise R reset_picks
  ∧ (∀ u, stepwise R (profile u))
  ∧ (∀ m, stepwise R (always_add m))
  ∧ (∀ m, stepwise R (always_remove m))
  ∧ (∀ name now, stepwise R (handle_export name now)).
Proof.
  repeat split; intros; intros st.
  - apply frame. reflexivity.
  - apply frame. reflexivity.
  - apply frame. reflexivity.
  - apply frame. reflexivity.
  - apply frame. reflexivity.
  - apply frame. reflexivity.
  - rewrite handle_export_run.
    match goal with |- context [if ?b then _ else _] => destruct b end;
      apply frame; reflexivity.
Qed.

End RafflesFrame.

Lemma raffles_progress_open name now st :
  raffles_progress (db st) (db (open_raffle name now st)).
Proof.
  unfold open_raffle. cbn [db].
  destruct (DB.raffles (db st) !! name) eqn:Hn; [reflexivity|].
  intros n row Hrow. exists row. split; [|done]. simpl.
  rewrite lookup_insert_ne; [done|]. intros <-. congruence.
Qed.

Lemma record_winners_db_raffles name now ws st :
  DB.raffles (db (record_winners name now ws st)) = DB.raffles (db st).
Proof.
  revert st. induction ws as [|w ws IH]; intros st; [done|].
  by rewrite record_winners_cons, IH, record_winner_state_db_raffles.
Qed.

Lemma raffles_progress_pick g rng now name number st :
  raffles_progress (db st) (db (exec (pick g rng now name number) st)).
Proof.
  destruct (pick_exec g rng now name number st) as [->|[->| ->]].
  - reflexivity.
  - apply raffles_progress_open.
  - etrans; [apply raffles_progress_open|].
    apply raffles_progress_frame, record_winners_db_raffles.
Qed.

Lemma raffles_progress_archive st x :
  raffles_progress (db st) (db (archive_state st x)).
Proof.
  intros n row Hrow. simpl.
  destruct (decide (n = x)) as [->|Hne].
  - exists (archive_row row). rewrite lookup_alter_eq, Hrow. done.
  - exists row. by rewrite lookup_alter_ne.
Qed.

Lemma raffles_progress_tick now up st :
  raffles_progress (db st) (db (exec (archive_watcher now up) st)).
Proof.
  unfold exec. rewrite archive_watcher_run. cbn [snd].
  generalize (archived_by up (db_get_due_archives now (db st))).
  intros l. revert st. induction l as [|x l IH]; intros st; [reflexivity|].
  cbn [foldl]. etrans; [apply raffles_progress_archive|apply IH].
Qed.

Lemma raffles_progress_run cmd st :
  not_a_reset cmd → raffles_progress (db st) (db (run cmd st)).
Proof.
  intros Hcmd.
  destruct (frame_simple raffles_progress raffles_progress_frame)
    as (Hb & Hu & Hr & Hp & Ha & Hrm & He).
  destruct cmd; cbn [run]; try contradiction.
  - apply (frame_register raffles_progress raffles_progress_frame).
  - apply (frame_unregister raffles_progress raffles_progress_frame).
  - apply Hb.
  - apply Hu.
  - apply raffles_progress_pick.
  - apply Hr.
  - apply Hp.
  - apply Ha.
  - apply Hrm.
  - apply He.
  - apply raffles_progress_tick.
  - reflexivity.
  - reflexivity.
Qed.

(** Over any run of commands without [reset_db] and [reset_raffles], a
    raffle row is never deleted, keeps its creation time, and once
    archived stays archived: no command moves a raffle back to
    active. *)
Theorem archived_raffles_stay_archived cmds st name row :
  Forall not_a_reset cmds →
  DB.raffles (db st) !! name = Some row →
  ∃ row', DB.raffles (db (run_all cmds st)) !! name = Some row'
          ∧ DB.created_at row' = DB.created_at row
          ∧ (DB.archived row = 1 → DB.archived row' = 1).
Proof.
  intros Hcmds. revert name row.
  change (raffles_progress (db st) (db (run_all cmds st))).
  revert st. induction cmds as [|cmd cmds IH]; intros st; [reflexivity|].
  apply Forall_cons in Hcmds as [Hcmd Hcmds].
  rewrite run_all_cons.
  etrans; [by apply raffles_progress_run|by apply IH].
Qed.

Lemma archived_raffles_stay_archived_witness :
  let st := mkState empty_cache archived_store in
  let cmds := [Restart; Pick (guild_of [1]) [] 500 "SpaceA" 1;
               Export "SpaceA" 510; Tick 900 (λ _, true);
               Unregister 1 false None] in
  ∃ row', DB.raffles (db (run_all cmds st)) !! "SpaceA" = Some row'
          ∧ DB.created_at row' = DB.created_at (DB.mkRaffleRow 10 1)
          ∧ (DB.archived (DB.mkRaffleRow 10 1) = 1 → DB.archived row' = 1).
Proof.
  intros st cmds.
  apply (archived_raffles_stay_archived cmds st "SpaceA" (DB.mkRaffleRow 10 1)).
  - repeat constructor.
  - vm_compute. reflexivity.
Defined.

(** ** The cached sets mirror their tables *)

Lemma update_stat_db_always uid dr dw d :
  DB.always_pick (update_stat_db uid dr dw d) = DB.always_pick d.
Proof.
  unfold update_stat_db, upsert_user_db. by destruct (DB.stats d !! uid).
Qed.

Lemma upsert_user_db_sets uid link d :
  DB.always_pick (upsert_user_db uid link d) = DB.always_pick d
  ∧ DB.picks_state (upsert_user_db uid link d) = DB.picks_state d.
Proof. unfold upsert_user_db. by destruct (DB.stats d !! uid). Qed.

Lemma record_winners_db_always name now ws st :
  DB.always_pick (db (record_winners name now ws st)) = DB.always_pick (db st).
Proof.
  revert st. induction ws as [|w ws IH]; intros st; [done|].
  rewrite record_winners_cons, IH. unfold record_winner_state. cbn [db].
  rewrite update_stat_db_always. cbn. unfold insert_winner_db.
  by destruct (DB.has_winner name w (db st)).
Qed.

Lemma sets_mirror_register author link st :
  sets_mirror st → sets_mirror (exec (register author link) st).
Proof.
  intros [H1 H2]. unfold exec. rewrite register_run.
  destruct link as [l|]; [|done].
  case_bool_decide; [done|].
  destruct (link_ok l); cbn [negb]; [|done].
  destruct (user_links (cache st) !! author); [done|].
  destruct (is_blacklisted author (db st)); [done|].
  unfold sets_mirror, registered. cbn [snd db cache].
  rewrite update_stat_db_picks, update_stat_db_always.
  destruct (upsert_user_db_sets author l (db st)) as [-> ->].
  done.
Qed.

Lemma sets_mirror_pick g rng now name number st :
  sets_mirror st → sets_mirror (exec (pick g rng now name number) st).
Proof.
  intros [H1 H2].
  assert (Hopen : sets_mirror (open_raffle name now st)).
  { unfold sets_mirror, open_raffle. cbn [cache db].
    by destruct (raffles (cache st) !! name), (DB.raffles (db st) !! name). }
  destruct (pick_exec g rng now name number st) as [->|[->| ->]];
    [done|done|].
  destruct Hopen as [O1 O2].
  destruct (open_raffle_open name now st) as [[l Hl] _].
  destruct (record_winners_cache name now
              (processed g (draw_winners (cache st) (db st) g number rng))
              _ _ Hl) as (_ & _ & H3 & H4 & _ & H6).
  split.
  - by rewrite H3, H4, O1.
  - by rewrite H6, record_winners_db_always.
Qed.

Lemma sets_mirror_tick now up st :
  sets_mirror st → sets_mirror (exec (archive_watcher now up) st).
Proof.
  unfold exec. rewrite archive_watcher_run. cbn [snd].
  generalize (archived_by up (db_get_due_archives now (db st))).
  intros l. revert st. induction l as [|x l IH]; intros st H; [done|].
  cbn [foldl]. apply IH. exact H.
Qed.

Lemma reset_db_run st :
  reset_db st = (Return Done, mkState empty_cache DB.empty)
  ∨ ∃ e, reset_db st = (Raise (DbError e), st).
Proof.
  unfold reset_db. rewrite bind_unfold. unfold transaction.
  destruct (DB.and_then _ _) as [d|e] eqn:Htxn.
  - left. rewrite bind_unfold. cbn.
    unfold DB.and_then in Htxn.
    destruct (DB.delete_all_users (db st)); [|done].
    destruct (DB.delete_all_raffles _); [|done].
    by injection Htxn as <-.
  - right. by exists e.
Qed.

Lemma reset_raffles_run st :
  (∃ d, reset_raffles st
        = (Return Done,
           mkState (mkCache (user_links (cache st)) ∅ ∅ ∅ (always_pick (cache st)))
                   d)
        ∧ DB.picks_state d = ∅
        ∧ DB.always_pick d = DB.always_pick (db st))
  ∨ ∃ e, reset_raffles st = (Raise (DbError e), st).
Proof.
  unfold reset_raffles. rewrite bind_unfold. unfold transaction.
  destruct (DB.and_then _ _) as [d|e] eqn:Htxn.
  - left. exists d. rewrite bind_unfold. cbn. split; [done|].
    unfold DB.and_then, DB.delete_all_raffles in Htxn.
    case_bool_decide; [done|]. by injection Htxn as <-.
  - right. by exists e.
Qed.

Lemma sets_mirror_run cmd st :
  not_unregister cmd → sets_mirror st → sets_mirror (run cmd st).
Proof.
  intros Hcmd H. destruct cmd; cbn [run]; try contradiction.
  - by apply sets_mirror_register.
  - exact H.
  - exact H.
  - by apply sets_mirror_pick.
  - destruct H as [H1 H2]. split; [reflexivity|exact H2].
  - exact H.
  - destruct H as [H1 H2]. split; [exact H1|].
    exact (f_equal (λ s : gset Z, {[member]} ∪ s) H2).
  - destruct H as [H1 H2]. split; [exact H1|].
    exact (f_equal (λ s : gset Z, s ∖ {[member]}) H2).
  - unfold exec. rewrite handle_export_run.
    match goal with |- context [if ?b then _ else _] => destruct b end;
      exact H.
  - by apply sets_mirror_tick.
  - split; reflexivity.
  - split; reflexivity.
  - unfold exec. destruct (reset_db_run st) as [-> | [e ->]]; [|exact H].
    split; reflexivity.
  - unfold exec.
    destruct (reset_raffles_run st) as [(d & -> & Hp & Ha) | [e ->]];
      [|exact H].
    destruct H as [H1 H2]. split; cbn; [by rewrite Hp|by rewrite Ha].
Qed.

(** Over any run of commands without [unregister], started where the
    cached picked state and always-pick set equal their tables (as
    they do on a new deployment and after every startup rebuild), both
    stay equal to their tables. *)
Theorem cached_sets_mirror_store cmds st :
  Forall not_unregister cmds →
  sets_mirror st → sets_mirror (run_all cmds st).
Proof.
  revert st. induction cmds as [|cmd cmds IH]; intros st Hcmds H; [done|].
  apply Forall_cons in Hcmds as [Hcmd Hcmds].
  rewrite run_all_cons. apply IH; [done|]. by apply sets_mirror_run.
Qed.

Lemma cached_sets_mirror_store_witness :
  sets_mirror
    (run_all [Register 2 alice; AlwaysAdd 1;
              Pick (guild_of [1; 2]) [] 10 "SpaceA" 2; AlwaysRemove 1;
              ResetPicks; Tick 20 (λ _, false); ResetRaffles] init).
Proof.
  apply cached_sets_mirror_store.
  - repeat constructor.
  - split; reflexivity.
Defined.

(** ** The startup rebuild (lines 131-158) *)

Lemma winners_of_snoc name rows r :
  winners_of name (rows ++ [r])
  = winners_of name rows
    ++ (if bool_decide (DB.raffle_name r = name) then [DB.user_id r] else []).
Proof.
  unfold winners_of. rewrite filter_app, fmap_app. f_equal.
  case_bool_decide.
  - by rewrite filter_cons_True.
  - by rewrite filter_cons_False.
Qed.

Lemma load_fold_lookup d rows pre (m : gmap string (list Z)) :
  (∀ name, m !! name
           = if is_active name d then Some (winners_of name pre) else None) →
  ∀ name,
    foldl (λ m r,
             match DB.raffles d !! DB.raffle_name r with
             | Some row =>
                 if bool_decide (DB.archived row = 0)
                 then <[DB.raffle_name r :=
                          default [] (m !! DB.raffle_name r) ++ [DB.user_id r]]> m
                 else m
             | None => m
             end) m rows !! name
    = if is_active name d then Some (winners_of name (pre ++ rows)) else None.
Proof.
  revert pre m. induction rows as [|r rows IH]; intros pre m Hm name.
  - rewrite app_nil_r. apply Hm.
  - cbn [foldl].
    replace (pre ++ r :: rows) with ((pre ++ [r]) ++ rows)
      by (by rewrite <- app_assoc).
    apply IH. clear IH name. intros name.
    rewrite winners_of_snoc.
    pose proof (Hm name) as Hname. pose proof (Hm (DB.raffle_name r)) as Hk.
    unfold is_active in *.
    destruct (DB.raffles d !! DB.raffle_name r) as [row|] eqn:Hrow.
    + case_bool_decide as Harch.
      * destruct (decide (name = DB.raffle_name r)) as [->|Hne].
        -- rewrite lookup_insert_eq, Hrow, Hk.
           rewrite !bool_decide_eq_true_2 by done. done.
        -- rewrite lookup_insert_ne by done. rewrite Hname.
           rewrite (bool_decide_eq_false_2 (DB.raffle_name r = name))
             by (intros ?; by destruct Hne).
           by rewrite app_nil_r.
      * rewrite Hname. case_bool_decide as Heq; [|by rewrite app_nil_r].
        subst name. rewrite Hrow. by rewrite bool_decide_eq_false_2.
    + rewrite Hname. case_bool_decide as Heq; [|by rewrite app_nil_r].
      subst name. by rewrite Hrow.
Qed.

Lemma load_raffles_lookup d name :
  load_raffles d !! name
  = if is_active name d then Some (winners_of name (DB.raffle_winners d))
    else None.
Proof.
  unfold load_raffles.
  apply (load_fold_lookup d (DB.raffle_winners d) []).
  intros n. rewrite lookup_fmap. unfold is_active.
  destruct (DB.raffles d !! n) as [row|] eqn:Hrow.
  - case_bool_decide as Harch.
    + erewrite map_lookup_filter_Some_2; [done|exact Hrow|done].
    + rewrite map_lookup_filter_None_2; [done|].
      right. intros row' Hrow'. simpl. congruence.
  - rewrite map_lookup_filter_None_2; [done|]. by left.
Qed.

(** A new process rebuilds its cache from the store alone: the cached
    links and stats are the [users] and [stats] tables, the picked
    state and the always-pick set are their tables, and the cached
    raffles are the active raffles, each with the users of its winner
    rows in row order; an archived raffle is not cached.  The store is
    not written. *)
Theorem restart_rebuilds_cache st name :
  let st' := run Restart st in
  db st' = db st
  ∧ user_links (cache st') = DB.users (db st)
  ∧ user_stats (cache st') = DB.stats (db st)
  ∧ already_picked (cache st') = DB.picks_state (db st)
  ∧ always_pick (cache st') = DB.always_pick (db st)
  ∧ raffles (cache st') !! name
    = if is_active name (db st)
      then Some (winners_of name (DB.raffle_winners (db st)))
      else None.
Proof.
  cbv zeta.
  change (run Restart st)
    with (mkState
            (mkCache (DB.users (db st) ∪ ∅) (DB.stats (db st) ∪ ∅)
                     (load_raffles (db st)) (DB.picks_state (db st))
                     (DB.always_pick (db st)))
            (db st)).
  cbn [cache db user_links user_stats already_picked always_pick raffles].
  rewrite !(right_id_L ∅ (∪)).
  repeat split; try done. apply load_raffles_lookup.
Qed.

(** ** [list_users]: the batches (lines 466-486) *)

Lemma chars_app b1 b2 : chars (b1 ++ b2) = chars b1 + chars b2.
Proof.
  unfold chars. induction b1 as [|u b1 IH]; simpl; [done|]. rewrite IH. lia.
Qed.

Lemma chars_nonneg b : 0 ≤ chars b.
Proof. unfold chars. induction b as [|u b IH]; simpl; lia. Qed.

Lemma batch_loop_spec users sent batch :
  Forall (λ user, Z.of_nat (String.length user) ≤ 5500) users →
  chars batch ≤ 5500 →
  Forall (λ b, b ≠ [] ∧ chars b ≤ 5500) sent →
  let '(sent', batch') := batch_loop users sent batch (chars batch) in
  concat sent' ++ batch' = concat sent ++ batch ++ users
  ∧ chars batch' ≤ 5500
  ∧ Forall (λ b, b ≠ [] ∧ chars b ≤ 5500) sent'.
Proof.
  revert sent batch. induction users as [|user users IH];
    intros sent batch Husers Hbatch Hsent.
  - simpl. by rewrite app_nil_r.
  - apply Forall_cons in Husers as [Huser Husers]. cbn [batch_loop].
    destruct (5500 <? chars batch + Z.of_nat (String.length user)) eqn:Hover.
    + apply Z.ltb_lt in Hover.
      assert (Hone : chars [user] = Z.of_nat (String.length user))
        by (unfold chars; simpl; lia).
      rewrite <- Hone.
      specialize (IH (sent ++ [batch]) [user] Husers).
      destruct (batch_loop users (sent ++ [batch]) [user] (chars [user]))
        as [sent' batch'].
      destruct IH as (Hcat & Hb & Hs).
      * lia.
      * apply Forall_app. split; [done|]. apply Forall_singleton.
        split; [|done]. intros ->. unfold chars in Hover. simpl in Hover. lia.
      * split; [|done]. rewrite Hcat, concat_app. simpl.
        by rewrite app_nil_r, <- !app_assoc.
    + apply Z.ltb_ge in Hover.
      assert (Hsnoc : chars (batch ++ [user])
                      = chars batch + Z.of_nat (String.length user)).
      { rewrite chars_app. unfold chars at 2. simpl. lia. }
      rewrite <- Hsnoc.
      specialize (IH sent (batch ++ [user]) Husers).
      destruct (batch_loop users sent (batch ++ [user])
                  (chars (batch ++ [user]))) as [sent' batch'].
      destruct IH as (Hcat & Hb & Hs); [lia|done|].
      split; [|done]. rewrite Hcat. by rewrite <- !app_assoc.
Qed.

(** The mentions are sent in batches that together are the list of
    mentions, in order and without loss; no batch is empty and no
    batch holds more than 5500 characters, as long as no single
    mention is longer than that. *)
Theorem send_batches_partition users :
  Forall (λ user, Z.of_nat (String.length user) ≤ 5500) users →
  concat (send_batches users) = users
  ∧ Forall (λ b, b ≠ [] ∧ chars b ≤ 5500) (send_batches users).
Proof.
  intros Husers. unfold send_batches.
  pose proof (batch_loop_spec users [] [] Husers) as H.
  change (chars []) with 0 in H.
  destruct (batch_loop users [] [] 0) as [sent batch].
  destruct H as (Hcat & Hb & Hs); [lia|done|].
  simpl in Hcat. destruct batch as [|u batch].
  - rewrite app_nil_r in Hcat. done.
  - split.
    + rewrite concat_app. simpl. by rewrite app_nil_r.
    + apply Forall_app. split; [done|]. by apply Forall_singleton.
Qed.

Lemma send_batches_partition_witness :
  concat (send_batches ["<@111>"; "<@222>"; "<@333>"])
    = ["<@111>"; "<@222>"; "<@333>"]
  ∧ Forall (λ b, b ≠ [] ∧ chars b ≤ 5500)
           (send_batches ["<@111>"; "<@222>"; "<@333>"]).
Proof.
  apply send_batches_partition.
  repeat constructor; vm_compute; discriminate.
Defined.

(** ** [status]: the counts (lines 584-601) *)

Lemma filter_partition_length {A} (P Q : A → Prop)
    `{!∀ x, Decision (P x)} `{!∀ x, Decision (Q x)} (l : list A) :
  (∀ x, x ∈ l → (Q x ↔ ¬ P x)) →
  (length (filter P l) + length (filter Q l))%nat = length l.
Proof.
  induction l as [|x l IH]; intros Hl; [done|].
  rewrite !filter_cons.
  assert (Hx : Q x ↔ ¬ P x) by (apply Hl; by left).
  assert (IH' : (length (filter P l) + length (filter Q l))%nat = length l).
  { apply IH. intros y Hy. apply Hl. by right. }
  destruct (decide (P x)), (decide (Q x)); simpl; try lia; tauto.
Qed.

(** Every registered user is counted once: the online and the offline
    count add up to the number of registered users, and the offline
    users are the registered users that are not in the guild or are
    offline there. *)
Theorem status_counts c g :
  (length (status_online c g) + length (status_offline c g))%nat
    = size (user_links c)
  ∧ ∀ uid, uid ∈ status_offline c g
           ↔ is_Some (user_links c !! uid)
             ∧ (get_member g uid = None ∨ get_member g uid = Some offline).
Proof.
  assert (Hkeys : ∀ uid, uid ∈ (map_to_list (user_links c)).*1
                         ↔ is_Some (user_links c !! uid)).
  { intros uid. rewrite list_elem_of_fmap. split.
    - intros ([k v] & -> & H). apply elem_of_map_to_list in H. by exists v.
    - intros [v H]. exists (uid, v). split; [done|].
      by apply elem_of_map_to_list. }
  assert (Hoff : ∀ uid, uid ∈ (map_to_list (user_links c)).*1 →
            (uid ∉ status_online c g
             ↔ ¬ (is_Some (get_member g uid)
                  ∧ get_member g uid ≠ Some offline))).
  { intros uid Hin. unfold status_online. rewrite list_elem_of_filter. tauto. }
  split.
  - rewrite <- length_map_to_list, <- (length_fmap fst).
    unfold status_offline. unfold status_online at 1.
    by apply filter_partition_length.
  - intros uid. unfold status_offline.
    rewrite list_elem_of_filter, <- Hkeys. split.
    + intros [Hno Hin]. split; [done|]. apply (Hoff uid Hin) in Hno.
      destruct (get_member g uid) as [s|]; [|by left]. right.
      destruct (decide (s = offline)) as [->|Hs]; [done|].
      destruct Hno. split; [by eexists|congruence].
    + intros [Hin Hm]. split; [|done]. apply (Hoff uid Hin).
      intros [[s Hs] Hne]. destruct Hm as [Hm|Hm]; congruence.
Qed.

(** ** The store after any run *)

(** Whatever commands have run since a new deployment: every [stats]
    row belongs to a user with a [users] row; every winner row names
    an existing raffle and a user who has a [stats] row and a [users]
    row (a winner who never registered got both from the draw); and no
    two winner rows have the same raffle and user. *)
Theorem reachable_store_integrity cmds :
  let d := db (run_all cmds init) in
  (∀ uid, is_Some (DB.stats d !! uid) → is_Some (DB.users d !! uid))
  ∧ (∀ r, r ∈ DB.raffle_winners d →
          is_Some (DB.raffles d !! DB.raffle_name r)
          ∧ is_Some (DB.stats d !! DB.user_id r)
          ∧ is_Some (DB.users d !! DB.user_id r))
  ∧ NoDup (winner_key <$> DB.raffle_winners d).
Proof.
  intros d. destruct (reachable_store_ok cmds) as [H1 H2 H3 H4].
  fold d in H1, H2, H3, H4. split; [done|]. split; [|done].
  intros r Hr. split; [by apply H2|]. split; [by apply H3|].
  by apply H1, H3.
Qed.

(** ** [blacklist] and [unblacklist] (lines 364-394) *)

(** Blacklisting writes the blacklist table and nothing else.  While a
    user is blacklisted a registration by that user is never accepted
    and changes nothing; removing the user from the blacklist leaves
    the blacklist without the user and everything else as it was. *)
Theorem blacklist_blocks_registration member link st :
  let st1 := exec (blacklist member) st in
  st1 = mkState (cache st)
                (DB.set_blacklist ({[member]} ∪ DB.blacklist (db st)) (db st))
  ∧ (∃ r, (register member link st1).1 = Return r ∧ r ≠ Registered)
  ∧ exec (register member link) st1 = st1
  ∧ exec (unblacklist member) st1
    = mkState (cache st)
              (DB.set_blacklist (DB.blacklist (db st) ∖ {[member]}) (db st)).
Proof.
  intros st1.
  assert (Hst1 : st1 = mkState (cache st)
            (DB.set_blacklist ({[member]} ∪ DB.blacklist (db st)) (db st)))
    by reflexivity.
  assert (Hbl : is_blacklisted member (db st1) = true).
  { rewrite Hst1. apply bool_decide_eq_true. cbn.
    apply elem_of_union. left. by apply elem_of_singleton. }
  assert (Hreg : ∃ r, register member link st1 = (Return r, st1)
                      ∧ r ≠ Registered).
  { rewrite register_run. destruct link as [l|]; [|by eexists].
    case_bool_decide; [by eexists|].
    destruct (link_ok l); cbn [negb]; [|by eexists].
    destruct (user_links (cache st1) !! member); [by eexists|].
    rewrite Hbl. by eexists. }
  destruct Hreg as (r & Hrun & Hr).
  split; [done|]. split; [exists r; by rewrite Hrun|].
  split; [unfold exec; by rewrite Hrun|].
  rewrite Hst1.
  change (exec (unblacklist member) ?s)
    with (mkState (cache s)
            (DB.set_blacklist (DB.blacklist (db s) ∖ {[member]}) (db s))).
  cbn [cache db DB.blacklist DB.set_blacklist]. unfold DB.set_blacklist.
  cbn. do 2 f_equal.
  apply set_eq. intros x.
  rewrite !elem_of_difference, elem_of_union, elem_of_singleton. tauto.
Qed.
